(** * dbq: nullable values and the transaction wrapper

    A shallow embedding of the Go package [dbq] (null.go, tx.go, errors.go
    and the generic row helpers) together with the properties of its
    specification.

    Conventions.
    - A Go [string] and a Go [[]byte] are both sequences of 8-bit bytes and
      are modelled by [bytes], a list of [ascii] characters.
    - A Go interface value ([any], [driver.Value], the operand of [panic])
      is modelled by the tagged union [any]; [error] values by [error].
    - Go integers are modelled by [Z] together with the range of their
      kind; [int] is taken to be 64 bits wide, as the package's tests do
      ([TestUnmarshalInt64Overflow] decodes [math.MaxInt64] into
      [Null[int]]).
    - A call that may panic returns an [Outcome]. *)

From Stdlib Require Import ZArith List Bool Ascii String Lia.
Import ListNotations.

Local Open Scope Z_scope.

(* ================================================================== *)
(** ** Bytes, errors and interface values *)

Definition bytes := list ascii.

(** A string literal as a byte sequence. *)
Definition bs (s : string) : bytes := list_ascii_of_string s.

Definition byte_eqb (a b : ascii) : bool := Ascii.eqb a b.

(** [bytes.Equal] and [==] on Go strings. *)
Fixpoint bytes_Equal (a b : bytes) : bool :=
  match a, b with
  | [], [] => true
  | x :: a', y :: b' => byte_eqb x y && bytes_Equal a' b'
  | _, _ => false
  end.

(** The [error] values that occur in the package: the sentinels of
    [database/sql] and [context], the package's own [*NotFoundError], the
    two error types of [encoding/json] that decoding a scalar can produce,
    [fmt.Errorf] with the [%w] verb, and any other error (a driver's). *)
Inductive error : Type :=
| ErrNoRows                                  (* sql.ErrNoRows *)
| ErrTxDone                                  (* sql.ErrTxDone *)
| DeadlineExceeded                           (* context.DeadlineExceeded *)
| Canceled                                   (* context.Canceled *)
| NotFoundErrorPtr (DataSource : bytes)      (* &NotFoundError{DataSource} *)
| SyntaxError                                (* *json.SyntaxError *)
| UnmarshalTypeError (value : bytes)         (* *json.UnmarshalTypeError *)
| wrapError (msg : bytes) (err : error)      (* fmt.Errorf("msg: %w", err) *)
| errorString (s : bytes).                   (* errors.New(s) *)

Fixpoint error_eqb (a b : error) : bool :=
  match a, b with
  | ErrNoRows, ErrNoRows => true
  | ErrTxDone, ErrTxDone => true
  | DeadlineExceeded, DeadlineExceeded => true
  | Canceled, Canceled => true
  | NotFoundErrorPtr x, NotFoundErrorPtr y => bytes_Equal x y
  | SyntaxError, SyntaxError => true
  | UnmarshalTypeError x, UnmarshalTypeError y => bytes_Equal x y
  | wrapError m x, wrapError m' y => bytes_Equal m m' && error_eqb x y
  | errorString x, errorString y => bytes_Equal x y
  | _, _ => false
  end.

(** [errors.Is]: the chain of [Unwrap] is searched for the target. *)
Fixpoint errors_Is (err target : error) : bool :=
  error_eqb err target ||
  match err with
  | wrapError _ inner => errors_Is inner target
  | _ => false
  end.

(** The integer kinds of the [Number] constraint. *)
Inductive IntKind : Type := Kbyte | Kint | Kint16 | Kint32 | Kint64.

Definition IntKind_eqb (a b : IntKind) : bool :=
  match a, b with
  | Kbyte, Kbyte | Kint, Kint | Kint16, Kint16
  | Kint32, Kint32 | Kint64, Kint64 => true
  | _, _ => false
  end.

(** Interface values.  [nil_any] is the nil interface; every other value
    carries its dynamic type. *)
Inductive any : Type :=
| nil_any
| any_int (k : IntKind) (z : Z)
| any_bool (b : bool)
| any_string (s : bytes)
| any_bytes (s : bytes)                      (* []byte *)
| any_error (e : error)
| any_Access (handle : nat).                 (* a *sql.Tx seen as Access *)

(** The result of running a function body: it returns or it panics. *)
Inductive Outcome (A : Type) : Type :=
| Returned (a : A)
| Panicked (v : any).
Arguments Returned {A} a.
Arguments Panicked {A} v.

(* ================================================================== *)
(** ** null.go: the generic nullable value *)

(** The constraint [Type] of null.go.  What the package (and the
    libraries it calls through reflection) needs from a type argument [T]:
    its zero value, [==], boxing into an interface and the type assertion
    [value.(T)], the text codec of [encoding/json], and the package's
    [convertAssign] (which is not among the sources held here and is taken
    as given). *)
Class GoType (T : Type) : Type := {
  zero : T;
  go_eq : T -> T -> bool;
  box : T -> any;
  assert_T : any -> option T;
  json_Marshal : T -> bytes * option error;
  json_Unmarshal : bytes -> T -> T * option error;
  convertAssign : T -> any -> T * option error
}.

Record Null (T : Type) : Type := mkNull {
  Val : T;
  Valid : bool   (* Valid is true if T is not NULL *)
}.
Arguments mkNull {T} Val Valid.
Arguments Val {T} n.
Arguments Valid {T} n.

(** nullBytes is a JSON null literal *)
Definition nullBytes : bytes := bs "null".

Definition is_nil (err : option error) : bool :=
  match err with None => true | Some _ => false end.

Section NullOps.
Context {T : Type} `{GoType T}.

Definition New (val : T) (valid : bool) : Null T :=
  {| Val := val; Valid := valid |}.

(** [Scan] implements the Scanner interface.  The receiver is a
    pointer: the updated value is returned next to the error. *)
Definition Scan (n : Null T) (value : any) : Null T * option error :=
  match value with
  | nil_any => ({| Val := zero; Valid := false |}, None)
  | _ =>
    match assert_T value with
    | Some v => ({| Val := v; Valid := true |}, None)
    | None =>
      (* the failed assertion has stored the zero value in n.Val *)
      let '(v, err) := convertAssign zero value in
      ({| Val := v; Valid := is_nil err |}, err)
    end
  end.

(** [Value] implements the driver Valuer interface. *)
Definition Value (n : Null T) : any * option error :=
  if negb (Valid n) then (nil_any, None) else (box (Val n), None).

Definition FromValue (n : T) : Null T := New n true.

(** [FromPtr].  A pointer [*T] is modelled by what it points to, [None]
    standing for nil; the identity of pointers is not modelled. *)
Definition FromPtr (n : option T) : Null T :=
  match n with
  | None => New zero false
  | Some v => New v true
  end.

Definition ValueOrZero (n : Null T) : T :=
  if negb (Valid n) then zero else Val n.

(** [UnmarshalJSON] implements json.Unmarshaler. *)
Definition UnmarshalJSON (n : Null T) (data : bytes)
  : Null T * option error :=
  if bytes_Equal data nullBytes then
    ({| Val := Val n; Valid := false |}, None)
  else
    match json_Unmarshal data (Val n) with
    | (v, Some err) =>
      ({| Val := v; Valid := Valid n |},
       Some (wrapError (bs "null: couldn't unmarshal JSON") err))
    | (v, None) => ({| Val := v; Valid := true |}, None)
    end.

(** [MarshalJSON] implements json.Marshaler. *)
Definition MarshalJSON (n : Null T) : bytes * option error :=
  if negb (Valid n) then (bs "null", None) else json_Marshal (Val n).

Definition SetValid (n : Null T) (v : T) : Null T :=
  {| Val := v; Valid := true |}.

(** [Ptr]: nil, or a pointer to the copy of [Val] that the value
    receiver holds, given by what it points to. *)
Definition Ptr (n : Null T) : option T :=
  if negb (Valid n) then None else Some (Val n).

Definition IsZero (n : Null T) : bool := negb (Valid n).

Definition Equal (n other : Null T) : bool :=
  Bool.eqb (Valid n) (Valid other)
  && (negb (Valid n) || go_eq (Val n) (Val other)).

End NullOps.

(* ================================================================== *)
(** ** errors.go *)

(** [NotFoundError.Error]. *)
Definition NotFoundError_Error (DataSource : bytes) : bytes :=
  if negb (bytes_Equal DataSource [])
  then bs "no data found in " ++ DataSource
  else bs "no data found".

(* ================================================================== *)
(** ** The environment of tx.go: contexts, the driver, units of work *)

(** Keys of context values: the private [txKeyType{}] of tx.go, the
    [CtxDataSourceKey{}] used by [QueryRow] (declared elsewhere in the
    package), and any other key. *)
Inductive ctxKey : Type :=
| txKeyType
| CtxDataSourceKey
| otherKey (name : bytes).

Definition ctxKey_eqb (a b : ctxKey) : bool :=
  match a, b with
  | txKeyType, txKeyType => true
  | CtxDataSourceKey, CtxDataSourceKey => true
  | otherKey x, otherKey y => bytes_Equal x y
  | _, _ => false
  end.

(** A [context.Context] as the chain of its values, innermost first. *)
Definition Context := list (ctxKey * any).

Definition WithValue (ctx : Context) (key : ctxKey) (val : any) : Context :=
  (key, val) :: ctx.

(** [ctx.Value(key)]: the innermost binding, or nil. *)
Fixpoint ctx_Value (ctx : Context) (key : ctxKey) : any :=
  match ctx with
  | [] => nil_any
  | (k, v) :: parent => if ctxKey_eqb k key then v else ctx_Value parent key
  end.

Record TxOptions : Type := {
  Isolation : Z;
  ReadOnly : bool
}.

Definition LevelDefault : Z := 0.

Definition DefaultTxOpts : TxOptions :=
  {| Isolation := LevelDefault; ReadOnly := false |}.

(** The four operations of [TxContext]. *)
Inductive Stmt : Type :=
| StPrepare (query : bytes)
| StExec (query : bytes) (args : list any)
| StQuery (query : bytes) (args : list any)
| StQueryRow (query : bytes) (args : list any).

(** What the database answers to a statement: an error, or the rows. *)
Record Reply : Type := {
  reply_err : option error;
  reply_rows : list (list any)
}.

(** What is observable of an execution: the calls made on the connection
    and on the transaction handle, and the lines logged. *)
Inductive Event : Type :=
| EvBegin (opts : option TxOptions)
| EvStmt (handle : nat) (s : Stmt)
| EvCommit (handle : nat)
| EvRollback (handle : nat)
| EvLog (msg : bytes).

Definition Trace := list Event.

(** The [Connector], the [*sql.Tx] it hands out and the request context,
    as functions of the history so far: the driver may answer a call in
    any way, and differently each time. *)
Record Driver : Type := {
  BeginTx : Trace -> Context -> option TxOptions -> nat * option error;
  sqlTx_Commit : Trace -> nat -> option error;
  sqlTx_Rollback : Trace -> nat -> option error;
  sqlTx_stmt : Trace -> nat -> Context -> Stmt -> Reply;
  ctx_Err : Trace -> Context -> option error
}.

(** [Tx]: a context and the transaction handle. *)
Record Tx : Type := {
  Tx_Context : Context;
  Tx_Tx : nat
}.

(** A unit of work [func(TxContext) error]: it can only call the four
    operations of [TxContext], and ends by returning an error value or by
    panicking. *)
Inductive Work : Type :=
| Return (err : option error)
| Panic (v : any)
| Call (s : Stmt) (k : Reply -> Work).

Section TxOps.
Variable d : Driver.

(** The [TxContext] methods of [*Tx] forward to the handle. *)
Definition Tx_call (t : Tx) (s : Stmt) (tr : Trace) : Reply * Trace :=
  (sqlTx_stmt d tr (Tx_Tx t) (Tx_Context t) s, tr ++ [EvStmt (Tx_Tx t) s]).

Definition Tx_Commit (t : Tx) (tr : Trace) : option error * Trace :=
  (sqlTx_Commit d tr (Tx_Tx t), tr ++ [EvCommit (Tx_Tx t)]).

Definition Tx_Rollback (t : Tx) (tr : Trace) : option error * Trace :=
  (sqlTx_Rollback d tr (Tx_Tx t), tr ++ [EvRollback (Tx_Tx t)]).

(** Running a unit of work against the transaction. *)
Fixpoint run (t : Tx) (w : Work) (tr : Trace)
  : Outcome (option error) * Trace :=
  match w with
  | Return err => (Returned err, tr)
  | Panic v => (Panicked v, tr)
  | Call s k => let '(reply, tr1) := Tx_call t s tr in run t (k reply) tr1
  end.

(* ================================================================== *)
(** ** tx.go *)

Definition AcquireWithOpts (ctx : Context) (opts : option TxOptions)
  (tr : Trace) : (Tx + error) * Trace :=
  let '(tx, err) := BeginTx d tr ctx opts in
  let tr1 := tr ++ [EvBegin opts] in
  match err with
  | Some e => (inr e, tr1)
  | None =>
    (inl {| Tx_Context := WithValue ctx txKeyType (any_Access tx);
            Tx_Tx := tx |}, tr1)
  end.

Definition Acquire (ctx : Context) (tr : Trace) : (Tx + error) * Trace :=
  AcquireWithOpts ctx (Some DefaultTxOpts) tr.

(** The deferred function of [TxWithOpts].  [r] is what [recover()]
    returns (nil when the unit of work did not panic), [err] the value of
    the local variable [err] when the function runs.  It returns the new
    value of that local variable. *)
Definition TxWithOpts_deferred (ctx : Context) (tx : Tx) (r : any)
  (err : option error) (tr : Trace) : option error * Trace :=
  let tr1 :=
    match r with
    | nil_any => tr
    | _ => tr ++ [EvLog (bs "Recovering from panic in Tx.Do error is: %v")]
    end in
  let '(err', tr2) :=
    match err with
    | None => Tx_Commit tx tr1
    | Some _ => Tx_Rollback tx tr1
    end in
  let timeout :=
    negb (is_nil (ctx_Err d tr2 ctx)) &&
    match err' with
    | Some e => errors_Is e DeadlineExceeded
    | None => false
    end in
  (err',
   if timeout
   then tr2 ++ [EvLog (bs "query response time exceeded the configured timeout")]
   else tr2).

(** [TxWithOpts].  The result parameter is unnamed: [return err] stores the
    value of [err] in the result and then runs the deferred function, whose
    assignments to the local [err] no longer reach the result; a panic that
    the deferred function recovers makes the function return the zero
    value of its result. *)
Definition TxWithOpts (ctx : Context) (fn : Tx -> Work)
  (opts : option TxOptions) (tr : Trace) : Outcome (option error) * Trace :=
  match AcquireWithOpts ctx opts tr with
  | (inr err, tr1) => (Returned (Some err), tr1)
  | (inl tx, tr1) =>
    match run tx (fn tx) tr1 with
    | (Returned err, tr2) =>
      let '(_, tr3) := TxWithOpts_deferred ctx tx nil_any err tr2 in
      (Returned err, tr3)
    | (Panicked v, tr2) =>
      (* [err = fn(tx)] never happened: err is the nil of the acquire *)
      let '(_, tr3) := TxWithOpts_deferred ctx tx v None tr2 in
      (Returned None, tr3)
    end
  end.

Definition Tx_ (ctx : Context) (fn : Tx -> Work) (tr : Trace)
  : Outcome (option error) * Trace :=
  TxWithOpts ctx fn (Some DefaultTxOpts) tr.

(** [FromCtxOr]: the transaction bound in the context, or the fallback. *)
Definition FromCtxOr (ctx : Context) (data : any) : any :=
  match ctx_Value ctx txKeyType with
  | any_Access h => any_Access h
  | _ => data
  end.

(* ================================================================== *)
(** ** The generic row helper [QueryRow] *)

(** [Scan] of a [*sql.Row] with one destination: the deferred error of the
    query if there is one, [sql.ErrNoRows] when the result has no row,
    and otherwise the conversion [conv] of the first row into the
    destination. *)
Definition Row_Scan {T : Type} (conv : list any -> T -> T * option error)
  (row : Reply) (dest : T) : T * option error :=
  match reply_err row with
  | Some e => (dest, Some e)
  | None =>
    match reply_rows row with
    | [] => (dest, Some ErrNoRows)
    | cols :: _ => conv cols dest
    end
  end.

(** [QueryRow[T any]].  [zeroT] is the zero value of [T]; the binder is
    not used by the function. *)
Definition QueryRow {T : Type} (zeroT : T)
  (conv : list any -> T -> T * option error)
  (ctx : Tx) (query : bytes) (binder : T -> list any) (args : list any)
  (tr : Trace) : Outcome (T * option error) * Trace :=
  let '(row, tr1) := Tx_call ctx (StQueryRow query args) tr in
  match Row_Scan conv row zeroT with
  | (result, Some ErrNoRows) =>
    match ctx_Value (Tx_Context ctx) CtxDataSourceKey with
    | any_string ds => (Returned (result, Some (NotFoundErrorPtr ds)), tr1)
    | _ =>
      (* the type assertion [.(string)] fails *)
      (Panicked (any_error (errorString
         (bs "interface conversion: interface {} is not string"))), tr1)
    end
  | (result, Some err) => (Returned (result, Some err), tr1)
  | (result, None) => (Returned (result, None), tr1)
  end.

End TxOps.

(* ================================================================== *)
(** ** The environment of null.go: encoding/json, strconv, unicode/utf8

    [json.Marshal] and [json.Unmarshal] are library functions; what
    follows describes them on the scalar kinds that a [Null[T]] can hold,
    after the library's sources (scanner.go, decode.go, encode.go of
    encoding/json; atoi.go and itoa.go of strconv; utf8.go).  [float64]
    and [time.Time] are left out. *)

Definition byte_val (c : ascii) : Z := Z.of_N (N_of_ascii c).
Definition byte_of (z : Z) : ascii := ascii_of_N (Z.to_N z).

Definition isSpace (c : ascii) : bool :=
  match c with
  | " "%char | "009"%char | "013"%char | "010"%char => true
  | _ => false
  end.

Definition isDigit (c : ascii) : bool :=
  (48 <=? byte_val c) && (byte_val c <=? 57).

Definition isHex (c : ascii) : bool :=
  isDigit c
  || ((97 <=? byte_val c) && (byte_val c <=? 102))
  || ((65 <=? byte_val c) && (byte_val c <=? 70)).

(** *** strconv *)

Fixpoint parse_digits (s : bytes) (acc : Z) : option Z :=
  match s with
  | [] => Some acc
  | c :: r =>
    if isDigit c then parse_digits r (acc * 10 + (byte_val c - 48))
    else None
  end.

(** [strconv.ParseUint(s, 10, 64)]; [None] stands for its errors. *)
Definition ParseUint (s : bytes) : option Z :=
  match s with
  | [] => None
  | _ =>
    match parse_digits s 0 with
    | Some un => if un <? 2 ^ 64 then Some un else None
    | None => None
    end
  end.

(** [strconv.ParseInt(s, 10, 64)]. *)
Definition ParseInt (s : bytes) : option Z :=
  match s with
  | [] => None
  | c :: r =>
    let '(neg, s1) :=
      match c with
      | "+"%char => (false, r)
      | "-"%char => (true, r)
      | _ => (false, s)
      end in
    match s1 with
    | [] => None
    | _ =>
      match parse_digits s1 0 with
      | None => None
      | Some un =>
        let cutoff := 2 ^ 63 in
        if negb neg && (cutoff <=? un) then None
        else if neg && (cutoff <? un) then None
        else Some (if neg then - un else un)
      end
    end
  end.

(** The digits of a non-negative number, most significant first
    ([formatBits]); [fuel] bounds the number of digits. *)
Fixpoint format_digits (fuel : nat) (u : Z) (acc : bytes) : bytes :=
  match fuel with
  | O => acc
  | S f =>
    if u <? 10 then byte_of (48 + u) :: acc
    else format_digits f (u / 10) (byte_of (48 + u mod 10) :: acc)
  end.

(** [strconv.AppendUint(nil, u, 10)]. *)
Definition FormatUint (u : Z) : bytes :=
  format_digits (S (Z.to_nat (Z.log2 u))) u [].

(** [strconv.AppendInt(nil, i, 10)]. *)
Definition FormatInt (i : Z) : bytes :=
  if i <? 0 then "-"%char :: FormatUint (- i) else FormatUint i.

(** *** unicode/utf8 and unicode/utf16 *)

Definition RuneError : Z := 0xFFFD.
Definition MaxRune : Z := 0x10FFFF.

(** The table [first] of utf8.go joined with [acceptRanges]: for a
    leading byte, the length of the sequence (0 when the byte cannot lead)
    and the range allowed for the second byte. *)
Definition first (p0 : Z) : nat * Z * Z :=
  if (0xC2 <=? p0) && (p0 <=? 0xDF) then (2%nat, 0x80, 0xBF)
  else if p0 =? 0xE0 then (3%nat, 0xA0, 0xBF)
  else if (0xE1 <=? p0) && (p0 <=? 0xEC) then (3%nat, 0x80, 0xBF)
  else if p0 =? 0xED then (3%nat, 0x80, 0x9F)
  else if (0xEE <=? p0) && (p0 <=? 0xEF) then (3%nat, 0x80, 0xBF)
  else if p0 =? 0xF0 then (4%nat, 0x90, 0xBF)
  else if (0xF1 <=? p0) && (p0 <=? 0xF3) then (4%nat, 0x80, 0xBF)
  else if p0 =? 0xF4 then (4%nat, 0x80, 0x8F)
  else (0%nat, 0, 0).

Definition outside (lo hi b : Z) : bool := (b <? lo) || (hi <? b).

(** [utf8.DecodeRune]: the first rune of [p] and its width in bytes. *)
Definition DecodeRune (p : bytes) : Z * nat :=
  match p with
  | [] => (RuneError, 0%nat)
  | c0 :: p1 =>
    let p0 := byte_val c0 in
    if p0 <? 0x80 then (p0, 1%nat)
    else
      let '(sz, lo, hi) := first p0 in
      match sz with
      | O => (RuneError, 1%nat)
      | _ =>
        if (List.length p <? sz)%nat then (RuneError, 1%nat)
        else
          match p1 with
          | [] => (RuneError, 1%nat)
          | c1 :: p2 =>
            let b1 := byte_val c1 in
            if outside lo hi b1 then (RuneError, 1%nat)
            else if (sz <=? 2)%nat then
              (Z.lor (Z.shiftl (Z.land p0 0x1F) 6) (Z.land b1 0x3F), 2%nat)
            else
              match p2 with
              | [] => (RuneError, 1%nat)
              | c2 :: p3 =>
                let b2 := byte_val c2 in
                if outside 0x80 0xBF b2 then (RuneError, 1%nat)
                else if (sz <=? 3)%nat then
                  (Z.lor (Z.lor (Z.shiftl (Z.land p0 0x0F) 12)
                                (Z.shiftl (Z.land b1 0x3F) 6))
                         (Z.land b2 0x3F), 3%nat)
                else
                  match p3 with
                  | [] => (RuneError, 1%nat)
                  | c3 :: _ =>
                    let b3 := byte_val c3 in
                    if outside 0x80 0xBF b3 then (RuneError, 1%nat)
                    else
                      (Z.lor (Z.lor (Z.lor (Z.shiftl (Z.land p0 0x07) 18)
                                           (Z.shiftl (Z.land b1 0x3F) 12))
                                    (Z.shiftl (Z.land b2 0x3F) 6))
                             (Z.land b3 0x3F), 4%nat)
                  end
              end
          end
      end
  end.

(** [utf8.EncodeRune] (through [utf8.AppendRune]). *)
Definition EncodeRune (r : Z) : bytes :=
  if (0 <=? r) && (r <=? 0x7F) then [byte_of r]
  else if (0 <=? r) && (r <=? 0x7FF) then
    [byte_of (Z.lor 0xC0 (Z.shiftr r 6));
     byte_of (Z.lor 0x80 (Z.land r 0x3F))]
  else
    let r :=
      if (r <? 0) || (MaxRune <? r) || ((0xD800 <=? r) && (r <=? 0xDFFF))
      then RuneError else r in
    if r <=? 0xFFFF then
      [byte_of (Z.lor 0xE0 (Z.shiftr r 12));
       byte_of (Z.lor 0x80 (Z.land (Z.shiftr r 6) 0x3F));
       byte_of (Z.lor 0x80 (Z.land r 0x3F))]
    else
      [byte_of (Z.lor 0xF0 (Z.shiftr r 18));
       byte_of (Z.lor 0x80 (Z.land (Z.shiftr r 12) 0x3F));
       byte_of (Z.lor 0x80 (Z.land (Z.shiftr r 6) 0x3F));
       byte_of (Z.lor 0x80 (Z.land r 0x3F))].

Definition IsSurrogate (r : Z) : bool := (0xD800 <=? r) && (r <? 0xE000).

(** [utf16.DecodeRune]. *)
Definition utf16_DecodeRune (r1 r2 : Z) : Z :=
  if (0xD800 <=? r1) && (r1 <? 0xDC00) && (0xDC00 <=? r2) && (r2 <? 0xE000)
  then Z.lor (Z.shiftl (r1 - 0xD800) 10) (r2 - 0xDC00) + 0x10000
  else RuneError.

(** *** encoding/json: the scanner *)

Fixpoint skip_ws (s : bytes) : bytes :=
  match s with
  | [] => []
  | c :: r => if isSpace c then skip_ws r else s
  end.

Fixpoint skip_digits (s : bytes) : bytes :=
  match s with
  | [] => []
  | c :: r => if isDigit c then skip_digits r else s
  end.

(** The scanners return what follows the scanned text, or [None] on a
    syntax error. *)
Definition scan_exp (s : bytes) : option bytes :=
  match s with
  | ("e" | "E")%char :: r =>
    let r1 := match r with ("+" | "-")%char :: x => x | _ => r end in
    match r1 with
    | c :: r2 => if isDigit c then Some (skip_digits r2) else None
    | [] => None
    end
  | _ => Some s
  end.

Definition scan_frac (s : bytes) : option bytes :=
  match s with
  | "."%char :: r =>
    match r with
    | c :: r1 => if isDigit c then scan_exp (skip_digits r1) else None
    | [] => None
    end
  | _ => scan_exp s
  end.

(** A number without its minus sign. *)
Definition unsigned_part (s : bytes) : bytes :=
  match s with
  | "-"%char :: r => r
  | _ => s
  end.

Definition scan_number (s : bytes) : option bytes :=
  match unsigned_part s with
  | c :: r =>
    if byte_eqb c "0" then scan_frac r
    else if isDigit c then scan_frac (skip_digits r)
    else None
  | [] => None
  end.

(** The inside of a string literal, after the opening quote. *)
Fixpoint scan_string (s : bytes) : option bytes :=
  match s with
  | [] => None
  | c :: r =>
    match c with
    | "034"%char => Some r
    | "\"%char =>
      match r with
      | [] => None
      | e :: r1 =>
        match e with
        | ("b" | "f" | "n" | "r" | "t" | "\" | "/" | "034")%char =>
          scan_string r1
        | "u"%char =>
          match r1 with
          | h1 :: h2 :: h3 :: h4 :: r2 =>
            if isHex h1 && isHex h2 && isHex h3 && isHex h4
            then scan_string r2 else None
          | _ => None
          end
        | _ => None
        end
      end
    | _ => if byte_val c <? 0x20 then None else scan_string r
    end
  end.

Fixpoint scan_literal (lit s : bytes) : option bytes :=
  match lit, s with
  | [], _ => Some s
  | l :: lit', c :: r => if byte_eqb l c then scan_literal lit' r else None
  | _ :: _, [] => None
  end.

Inductive scan_mode : Type :=
| scanValue        (* a value starts here *)
| scanElements     (* inside an array, a value is expected *)
| scanMembers.     (* inside an object, a key is expected *)

Fixpoint scan (fuel : nat) (m : scan_mode) (s : bytes) : option bytes :=
  match fuel with
  | O => None
  | S f =>
    match m with
    | scanValue =>
      match s with
      | [] => None
      | c :: r =>
        match c with
        | "{"%char =>
          match skip_ws r with
          | "}"%char :: r1 => Some r1
          | r1 => scan f scanMembers r1
          end
        | "["%char =>
          match skip_ws r with
          | "]"%char :: r1 => Some r1
          | r1 => scan f scanElements r1
          end
        | "034"%char => scan_string r
        | "t"%char => scan_literal (bs "rue") r
        | "f"%char => scan_literal (bs "alse") r
        | "n"%char => scan_literal (bs "ull") r
        | _ => scan_number s
        end
      end
    | scanElements =>
      match scan f scanValue s with
      | None => None
      | Some r =>
        match skip_ws r with
        | ","%char :: r1 => scan f scanElements (skip_ws r1)
        | "]"%char :: r1 => Some r1
        | _ => None
        end
      end
    | scanMembers =>
      match s with
      | "034"%char :: r =>
        match scan_string r with
        | None => None
        | Some r1 =>
          match skip_ws r1 with
          | ":"%char :: r2 =>
            match scan f scanValue (skip_ws r2) with
            | None => None
            | Some r3 =>
              match skip_ws r3 with
              | ","%char :: r4 => scan f scanMembers (skip_ws r4)
              | "}"%char :: r4 => Some r4
              | _ => None
              end
            end
          | _ => None
          end
        end
      | _ => None
      end
    end
  end.

Definition scan_fuel (data : bytes) : nat := S (2 * List.length data).

(** [checkValid]: one JSON value, white space around it allowed. *)
Definition checkValid (data : bytes) : bool :=
  match scan (scan_fuel data) scanValue (skip_ws data) with
  | Some r => match skip_ws r with [] => true | _ => false end
  | None => false
  end.

(** The bytes of the value itself ([d.data[start:d.readIndex()]]). *)
Definition json_item (data : bytes) : bytes :=
  let s := skip_ws data in
  match scan (scan_fuel data) scanValue s with
  | Some r => firstn (List.length s - List.length r) s
  | None => []
  end.

(** *** encoding/json: string literals *)

Definition hex_val (c : ascii) : Z :=
  let b := byte_val c in
  if isDigit c then b - 48
  else if (97 <=? b) && (b <=? 102) then b - 97 + 10
  else b - 65 + 10.

(** [getu4] on the four characters after a backslash and [u]. *)
Definition getu4 (h1 h2 h3 h4 : ascii) : option Z :=
  if isHex h1 && isHex h2 && isHex h3 && isHex h4
  then Some (hex_val h1 * 4096 + hex_val h2 * 256 + hex_val h3 * 16
             + hex_val h4)
  else None.

Definition prepend (p : bytes) (o : option bytes) : option bytes :=
  match o with
  | Some t => Some (p ++ t)
  | None => None
  end.

(** [unquoteBytes] on the text between the quotes.  Go first looks for
    a text that needs no rewriting and returns it as it is; the loop below
    is its general path, which leaves such a text unchanged. *)
Fixpoint unquote_body (s : bytes) : option bytes :=
  match s with
  | [] => Some []
  | c :: r =>
    match c with
    | "\"%char =>
      match r with
      | [] => None
      | e :: r1 =>
        match e with
        | ("034" | "\" | "/" | "'")%char => prepend [e] (unquote_body r1)
        | "b"%char => prepend ["008"%char] (unquote_body r1)
        | "f"%char => prepend ["012"%char] (unquote_body r1)
        | "n"%char => prepend ["010"%char] (unquote_body r1)
        | "r"%char => prepend ["013"%char] (unquote_body r1)
        | "t"%char => prepend ["009"%char] (unquote_body r1)
        | "u"%char =>
          match r1 with
          | h1 :: h2 :: h3 :: h4 :: r2 =>
            match getu4 h1 h2 h3 h4 with
            | None => None
            | Some rr =>
              if IsSurrogate rr then
                match r2 with
                | "\"%char :: "u"%char :: g1 :: g2 :: g3 :: g4 :: r3 =>
                  match getu4 g1 g2 g3 g4 with
                  | Some rr1 =>
                    let dec := utf16_DecodeRune rr rr1 in
                    if dec =? RuneError
                    then prepend (EncodeRune RuneError) (unquote_body r2)
                    else prepend (EncodeRune dec) (unquote_body r3)
                  | None => prepend (EncodeRune RuneError) (unquote_body r2)
                  end
                | _ => prepend (EncodeRune RuneError) (unquote_body r2)
                end
              else prepend (EncodeRune rr) (unquote_body r2)
            end
          | _ => None
          end
        | _ => None
        end
      end
    | "034"%char => None
    | _ =>
      if byte_val c <? 0x20 then None
      else if byte_val c <? 0x80 then prepend [c] (unquote_body r)
      else
        let '(rr, size) := DecodeRune s in
        let rest :=
          match size, r with
          | 2%nat, _ :: r2 => r2
          | 3%nat, _ :: _ :: r3 => r3
          | 4%nat, _ :: _ :: _ :: r4 => r4
          | _, _ => r
          end in
        prepend (EncodeRune rr) (unquote_body rest)
    end
  end.

(** [unquoteBytes]. *)
Definition unquote (item : bytes) : option bytes :=
  match item with
  | "034"%char :: r =>
    match rev r with
    | "034"%char :: body => unquote_body (rev body)
    | _ => None
    end
  | _ => None
  end.

Definition hex_digit (n : Z) : ascii :=
  if n <? 10 then byte_of (48 + n) else byte_of (87 + n).

(** [htmlSafeSet]. *)
Definition htmlSafeSet (c : ascii) : bool :=
  match c with
  | ("034" | "&" | "<" | ">" | "\")%char => false
  | _ => (0x20 <=? byte_val c) && (byte_val c <? 0x80)
  end.

(** [appendString] with [escapeHTML] set, between the quotes. *)
Fixpoint appendString_body (src : bytes) : bytes :=
  match src with
  | [] => []
  | c :: r =>
    let b := byte_val c in
    if b <? 0x80 then
      (if htmlSafeSet c then [c]
       else
         match c with
         | ("\" | "034")%char => ["\"%char; c]
         | "008"%char => ["\"; "b"]%char
         | "012"%char => ["\"; "f"]%char
         | "010"%char => ["\"; "n"]%char
         | "013"%char => ["\"; "r"]%char
         | "009"%char => ["\"; "t"]%char
         | _ =>
           ["\"; "u"; "0"; "0"]%char
           ++ [hex_digit (Z.shiftr b 4); hex_digit (Z.land b 0xF)]
         end) ++ appendString_body r
    else
      let '(rn, size) := DecodeRune src in
      let rest :=
        match size, r with
        | 2%nat, _ :: r2 => r2
        | 3%nat, _ :: _ :: r3 => r3
        | 4%nat, _ :: _ :: _ :: r4 => r4
        | _, _ => r
        end in
      if (rn =? RuneError) && (size =? 1)%nat then
        ["\"; "u"; "f"; "f"; "f"; "d"]%char ++ appendString_body rest
      else if (rn =? 0x2028) || (rn =? 0x2029) then
        (["\"; "u"; "2"; "0"; "2"]%char ++ [hex_digit (Z.land rn 0xF)])
        ++ appendString_body rest
      else firstn size src ++ appendString_body rest
  end.

Definition appendString (src : bytes) : bytes :=
  "034"%char :: appendString_body src ++ ["034"%char].

(** *** encoding/json: scalars *)

(** The kinds of the constraint [Type] that are covered, and their
    values. *)
Inductive Kind : Type :=
| KInt (k : IntKind)
| KBool
| KString.

Definition GoVal (K : Kind) : Type :=
  match K with
  | KInt _ => Z
  | KBool => bool
  | KString => bytes
  end.

(** The smallest and the largest value of an integer kind. *)
Definition int_min (k : IntKind) : Z :=
  match k with
  | Kbyte => 0
  | Kint16 => - 2 ^ 15
  | Kint32 => - 2 ^ 31
  | Kint | Kint64 => - 2 ^ 63
  end.

Definition int_max (k : IntKind) : Z :=
  match k with
  | Kbyte => 2 ^ 8 - 1
  | Kint16 => 2 ^ 15 - 1
  | Kint32 => 2 ^ 31 - 1
  | Kint | Kint64 => 2 ^ 63 - 1
  end.

(** [reflect.Value.OverflowInt] and [OverflowUint]. *)
Definition Overflow (k : IntKind) (n : Z) : bool :=
  (n <? int_min k) || (int_max k <? n).

(** The number case of [literalStore] for an integer kind. *)
Definition store_number (k : IntKind) (item : bytes) (v : Z)
  : Z * option error :=
  let parsed :=
    match k with
    | Kbyte => ParseUint item
    | _ => ParseInt item
    end in
  match parsed with
  | Some n =>
    if Overflow k n
    then (v, Some (UnmarshalTypeError (bs "number " ++ item)))
    else (n, None)
  | None => (v, Some (UnmarshalTypeError (bs "number " ++ item)))
  end.

(** [literalStore]: the literal [item] is stored in a value of kind [K]. *)
Definition literalStore (K : Kind) (item : bytes)
  : GoVal K -> GoVal K * option error :=
  match item with
  | [] => fun v => (v, Some SyntaxError)
  | c :: _ =>
    match c with
    | "n"%char => fun v => (v, None)
    | ("t" | "f")%char =>
      match K with
      | KBool => fun _ => (byte_eqb c "t", None)
      | _ => fun v => (v, Some (UnmarshalTypeError (bs "bool")))
      end
    | "034"%char =>
      match unquote item with
      | None => fun v => (v, Some SyntaxError)
      | Some s =>
        match K with
        | KString => fun _ => (s, None)
        | _ => fun v => (v, Some (UnmarshalTypeError (bs "string")))
        end
      end
    | _ =>
      match K with
      | KInt k => store_number k item
      | _ => fun v => (v, Some (UnmarshalTypeError (bs "number")))
      end
    end
  end.

(** [json.Unmarshal(data, &v)] for [v] of kind [K]. *)
Definition json_Unmarshal_kind (K : Kind) (data : bytes) (v : GoVal K)
  : GoVal K * option error :=
  if negb (checkValid data) then (v, Some SyntaxError)
  else
    match json_item data with
    | "{"%char :: _ => (v, Some (UnmarshalTypeError (bs "object")))
    | "["%char :: _ => (v, Some (UnmarshalTypeError (bs "array")))
    | item => literalStore K item v
    end.

(** [json.Marshal(v)] for [v] of kind [K]. *)
Definition json_Marshal_kind (K : Kind) : GoVal K -> bytes * option error :=
  match K with
  | KInt Kbyte => fun v => (FormatUint v, None)
  | KInt _ => fun v => (FormatInt v, None)
  | KBool => fun v => (if v then bs "true" else bs "false", None)
  | KString => fun v => (appendString v, None)
  end.

Definition Kind_zero (K : Kind) : GoVal K :=
  match K with
  | KInt _ => 0
  | KBool => false
  | KString => []
  end.

Definition Kind_eq (K : Kind) : GoVal K -> GoVal K -> bool :=
  match K with
  | KInt _ => Z.eqb
  | KBool => Bool.eqb
  | KString => bytes_Equal
  end.

Definition Kind_box (K : Kind) : GoVal K -> any :=
  match K with
  | KInt k => any_int k
  | KBool => any_bool
  | KString => any_string
  end.

(** The type assertion [value.(T)]: the dynamic type must be [T]. *)
Definition Kind_assert (K : Kind) (value : any) : option (GoVal K) :=
  match K, value with
  | KInt k, any_int k' z => if IntKind_eqb k k' then Some z else None
  | KBool, any_bool b => Some b
  | KString, any_string s => Some s
  | _, _ => None
  end.

(** The instance of the constraint for a kind; [conv] is the package's
    [convertAssign] at that kind. *)
Definition Kind_GoType (K : Kind)
  (conv : GoVal K -> any -> GoVal K * option error) : GoType (GoVal K) :=
  {| zero := Kind_zero K;
     go_eq := Kind_eq K;
     box := Kind_box K;
     assert_T := Kind_assert K;
     json_Marshal := json_Marshal_kind K;
     json_Unmarshal := json_Unmarshal_kind K;
     convertAssign := conv |}.

(** [utf8.Valid]. *)
Fixpoint utf8_Valid (p : bytes) : bool :=
  match p with
  | [] => true
  | c :: r =>
    if byte_val c <? 0x80 then utf8_Valid r
    else
      let '(rn, size) := DecodeRune p in
      let rest :=
        match size, r with
        | 2%nat, _ :: r2 => r2
        | 3%nat, _ :: _ :: r3 => r3
        | 4%nat, _ :: _ :: _ :: r4 => r4
        | _, _ => r
        end in
      negb ((rn =? RuneError) && (size =? 1)%nat) && utf8_Valid rest
  end.

(* ================================================================== *)
(** ** Notions used in the statements *)

(** The values on which the text codec is shown to round-trip: integers
    in range, booleans, and strings that are valid UTF-8. *)
Definition text_safe (K : Kind) : GoVal K -> Prop :=
  match K with
  | KInt k => fun v => int_min k <= v <= int_max k
  | KBool => fun _ => True
  | KString => fun s => utf8_Valid s = true
  end.



(** The leading digits of a text, and what follows them. *)
Fixpoint take_digits (s : bytes) : bytes * bytes :=
  match s with
  | [] => ([], [])
  | c :: r =>
    if isDigit c then let '(ds, rest) := take_digits r in (c :: ds, rest)
    else ([], s)
  end.

Definition digits_value (ds : bytes) : Z :=
  fold_left (fun acc c => acc * 10 + (byte_val c - 48)) ds 0.

(** Whether the value of a JSON number is an integer.  The value is the
    number written by the digits of the integer and fraction parts, times
    ten to the power of the exponent less the number of fraction
    digits. *)
Definition json_number_integral (s : bytes) : bool :=
  let '(ip, r1) := take_digits (unsigned_part s) in
  let '(fp, r2) :=
    match r1 with
    | "."%char :: r => take_digits r
    | _ => ([], r1)
    end in
  let e :=
    match r2 with
    | ("e" | "E")%char :: r =>
      match r with
      | "-"%char :: x => - digits_value (fst (take_digits x))
      | "+"%char :: x => digits_value (fst (take_digits x))
      | _ => digits_value (fst (take_digits r))
      end
    | _ => 0
    end in
  let scale := e - Z.of_nat (List.length fp) in
  if 0 <=? scale then true
  else digits_value (ip ++ fp) mod 10 ^ (- scale) =? 0.

(** A well-formed sequence: its bytes are all high, it encodes its rune,
    and it decodes to it whatever follows. *)
Definition utf8_sequence (seq : bytes) (rn : Z) : Prop :=
  Forall (fun c => 0x80 <= byte_val c) seq
  /\ EncodeRune rn = seq
  /\ forall t, DecodeRune (seq ++ t) = (rn, List.length seq).

Definition is_commit (ev : Event) : bool :=
  match ev with EvCommit _ => true | _ => false end.

Definition is_rollback (ev : Event) : bool :=
  match ev with EvRollback _ => true | _ => false end.

Definition count_events (p : Event -> bool) (evs : Trace) : nat :=
  List.length (filter p evs).

(** *** Concrete inputs *)

(** A [convertAssign] that refuses every value, to build closed
    instances; the text codec never calls it. *)
Definition refuse_convert (K : Kind) (v : GoVal K) (value : any)
  : GoVal K * option error :=
  (v, Some (errorString (bs "unsupported Scan"))).

Definition Null_int : GoType (GoVal (KInt Kint)) :=
  Kind_GoType (KInt Kint) (refuse_convert (KInt Kint)).

Definition Null_string : GoType (GoVal KString) :=
  Kind_GoType KString (refuse_convert KString).

(** A driver on which every call succeeds, except that [Commit] and
    [Rollback] answer with [fail], and whose single-row queries find no
    row. *)
Definition sample_driver (fail : option error) : Driver :=
  {| BeginTx := fun _ _ _ => (1%nat, None);
     sqlTx_Commit := fun _ _ => fail;
     sqlTx_Rollback := fun _ _ => fail;
     sqlTx_stmt := fun _ _ _ _ => {| reply_err := None; reply_rows := [] |};
     ctx_Err := fun _ _ => None |}.

Definition insert_then_panic (tx : Tx) : Work :=
  Call (StExec (bs "INSERT INTO t VALUES (1)") [])
       (fun _ => Panic (any_string (bs "boom"))).

Definition insert_then_return (err : option error) (tx : Tx) : Work :=
  Call (StExec (bs "INSERT INTO t VALUES (1)") []) (fun _ => Return err).

Definition users_ctx : Tx :=
  {| Tx_Context := [(txKeyType, any_Access 1);
                    (CtxDataSourceKey, any_string (bs "users"))];
     Tx_Tx := 1%nat |}.

(* ================================================================== *)
(** ** The generic row helper [Query] *)

Section QueryOps.
Variable d : Driver.
Context {T : Type}.

(** The loop of [Query] over the rows that [rows.Next()] yields.  Each
    row starts from a fresh [result], the zero value [zeroT]; [scan] is
    the joint effect on [result] of the binder, which hands out pointers
    into it, and of [rows.Scan], which assigns the columns of the row
    through them.  A scan error returns a nil slice. *)
Fixpoint Query_loop (zeroT : T) (scan : list any -> T -> T * option error)
  (rows : list (list any)) (results : list T) : list T * option error :=
  match rows with
  | [] => (results, None)
  | cols :: rest =>
    match scan cols zeroT with
    | (_, Some err) => ([], Some err)
    | (result, None) => Query_loop zeroT scan rest (results ++ [result])
    end
  end.

(** [Query[T any]]. *)
Definition Query (zeroT : T) (scan : list any -> T -> T * option error)
  (ctx : Tx) (query : bytes) (args : list any) (tr : Trace)
  : (list T * option error) * Trace :=
  let '(rows, tr1) := Tx_call d ctx (StQuery query args) tr in
  match reply_err rows with
  | Some err => (([], Some err), tr1)
  | None => (Query_loop zeroT scan (reply_rows rows) [], tr1)
  end.

End QueryOps.

(* ================================================================== *)
(** ** Further notions used in the statements *)

Definition is_stmt (ev : Event) : bool :=
  match ev with EvStmt _ _ => true | _ => false end.

(** A value that the Go type of kind [K] can hold: an integer within the
    range of its kind; any boolean; any byte sequence. *)
Definition representable (K : Kind) : GoVal K -> Prop :=
  match K with
  | KInt k => fun v => int_min k <= v <= int_max k
  | _ => fun _ => True
  end.

(** A context in which no transaction is bound. *)
Definition no_transaction (ctx : Context) : Prop :=
  Forall (fun kv => fst kv <> txKeyType) ctx.

(** The scan of a row with one integer column into an integer. *)
Definition scan_int (cols : list any) (v : Z) : Z * option error :=
  match cols with
  | [any_int _ z] => (z, None)
  | _ => (v, Some (errorString (bs "sql: Scan error on column index 0")))
  end.

(** A driver whose queries answer with the given rows. *)
Definition rows_driver (rows : list (list any)) : Driver :=
  {| BeginTx := fun _ _ _ => (1%nat, None);
     sqlTx_Commit := fun _ _ => None;
     sqlTx_Rollback := fun _ _ => None;
     sqlTx_stmt := fun _ _ _ _ => {| reply_err := None; reply_rows := rows |};
     ctx_Err := fun _ _ => None |}.

(** A driver that cannot begin a transaction. *)
Definition failing_driver (err : error) : Driver :=
  {| BeginTx := fun _ _ _ => (0%nat, Some err);
     sqlTx_Commit := fun _ _ => None;
     sqlTx_Rollback := fun _ _ => None;
     sqlTx_stmt := fun _ _ _ _ => {| reply_err := None; reply_rows := [] |};
     ctx_Err := fun _ _ => None |}.

(* ================================================================== *)
(** * Properties *)

(** ** The package's tests, on the embedding

    The cases of null_test.go, evaluated. *)

Example null_test_Unmarshal_int :
  @UnmarshalJSON _ Null_int {| Val := 0; Valid := false |} (bs "12345")
  = ({| Val := 12345; Valid := true |}, None).
Proof. reflexivity. Qed.

Example null_test_Unmarshal_string :
  @UnmarshalJSON _ Null_string {| Val := []; Valid := false |}
                 ("034"%char :: bs "12345" ++ ["034"%char])
  = ({| Val := bs "12345"; Valid := true |}, None).
Proof. reflexivity. Qed.

Example null_test_Unmarshal_object :
  @UnmarshalJSON _ Null_int {| Val := 0; Valid := false |}
    (bs "{" ++ "034"%char :: bs "Int64" ++ "034"%char :: bs ":12345,"
     ++ "034"%char :: bs "Valid" ++ "034"%char :: bs ":true}")
  = ({| Val := 0; Valid := false |},
     Some (wrapError (bs "null: couldn't unmarshal JSON")
                     (UnmarshalTypeError (bs "object")))).
Proof. reflexivity. Qed.

Example null_test_Unmarshal_blank :
  @UnmarshalJSON _ Null_int {| Val := 0; Valid := false |}
                 ["034"%char; "034"%char]
  = ({| Val := 0; Valid := false |},
     Some (wrapError (bs "null: couldn't unmarshal JSON")
                     (UnmarshalTypeError (bs "string")))).
Proof. reflexivity. Qed.

Example null_test_Unmarshal_null :
  @UnmarshalJSON _ Null_int {| Val := 0; Valid := false |} (bs "null")
  = ({| Val := 0; Valid := false |}, None).
Proof. reflexivity. Qed.

Example null_test_Unmarshal_bool :
  @UnmarshalJSON _ Null_int {| Val := 0; Valid := false |} (bs "true")
  = ({| Val := 0; Valid := false |},
     Some (wrapError (bs "null: couldn't unmarshal JSON")
                     (UnmarshalTypeError (bs "bool")))).
Proof. reflexivity. Qed.

Example null_test_Unmarshal_invalid :
  @UnmarshalJSON _ Null_int {| Val := 0; Valid := false |} (bs ":)")
  = ({| Val := 0; Valid := false |},
     Some (wrapError (bs "null: couldn't unmarshal JSON") SyntaxError)).
Proof. reflexivity. Qed.

Example null_test_UnmarshalNonIntegerNumber :
  @UnmarshalJSON _ Null_int {| Val := 0; Valid := false |} (bs "1.2345")
  = ({| Val := 0; Valid := false |},
     Some (wrapError (bs "null: couldn't unmarshal JSON")
                     (UnmarshalTypeError (bs "number 1.2345")))).
Proof. reflexivity. Qed.

Example null_test_UnmarshalInt64Overflow :
  @UnmarshalJSON _ Null_int {| Val := 0; Valid := false |}
                 (bs "9223372036854775807")
  = ({| Val := 9223372036854775807; Valid := true |}, None)
  /\ snd (@UnmarshalJSON _ Null_int {| Val := 0; Valid := false |}
                         (bs "9223372036854775808"))
     = Some (wrapError (bs "null: couldn't unmarshal JSON")
               (UnmarshalTypeError (bs "number 9223372036854775808"))).
Proof. split; vm_compute; reflexivity. Qed.

Example null_test_Marshal :
  @MarshalJSON _ Null_int (FromValue 12345) = (bs "12345", None)
  /\ @MarshalJSON _ Null_int (New 0 false) = (bs "null", None).
Proof. split; reflexivity. Qed.

Example null_test_FromPtr :
  @FromPtr _ Null_int (Some 12345) = {| Val := 12345; Valid := true |}
  /\ @FromPtr _ Null_int None = {| Val := 0; Valid := false |}.
Proof. split; reflexivity. Qed.

Example null_test_Scan :
  @Scan _ Null_int {| Val := 0; Valid := false |} (any_int Kint 12345)
  = ({| Val := 12345; Valid := true |}, None)
  /\ @Scan _ Null_int {| Val := 0; Valid := false |} nil_any
     = ({| Val := 0; Valid := false |}, None).
Proof. split; reflexivity. Qed.

Example null_test_ValueOrZero :
  @ValueOrZero _ Null_int (New 12345 true) = 12345
  /\ @ValueOrZero _ Null_int (New 12345 false) = 0.
Proof. split; reflexivity. Qed.

Example null_test_Equal :
  @Equal _ Null_int (New 10 false) (New 10 false) = true
  /\ @Equal _ Null_int (New 10 false) (New 20 false) = true
  /\ @Equal _ Null_int (New 10 true) (New 10 true) = true
  /\ @Equal _ Null_int (New 10 true) (New 10 false) = false
  /\ @Equal _ Null_int (New 10 false) (New 10 true) = false
  /\ @Equal _ Null_int (New 10 true) (New 20 true) = false.
Proof. repeat split; reflexivity. Qed.

(** ** Bytes and errors *)

Lemma byte_eqb_refl (c : ascii) : byte_eqb c c = true.
Proof. apply Ascii.eqb_refl. Qed.

Lemma bytes_Equal_refl (s : bytes) : bytes_Equal s s = true.
Proof.
  induction s as [|c s IH]; simpl; [reflexivity|].
  now rewrite byte_eqb_refl, IH.
Qed.

Lemma bytes_Equal_eq (a b : bytes) : bytes_Equal a b = true <-> a = b.
Proof.
  split; [|intros ->; apply bytes_Equal_refl].
  revert b; induction a as [|x a IH]; intros [|y b]; simpl; try discriminate; auto.
  intros E. apply andb_true_iff in E as [E1 E2].
  apply Ascii.eqb_eq in E1. apply IH in E2. now subst.
Qed.

(* ================================================================== *)
(** ** null.go: driver values and equality *)

Section NullFacts.
Context {T : Type} `{GoType T}.

(** C7.  An invalid [Null[T]], whatever it stores, has the driver value
    nil and no error; [Scan(nil)] on any instance succeeds and leaves the
    instance invalid, with the zero value of [T] in [Val]. *)
Theorem Value_invalid_Scan_nil :
  (forall val : T, Value {| Val := val; Valid := false |} = (nil_any, None))
  /\ (forall n : Null T,
        Scan n nil_any = ({| Val := zero; Valid := false |}, None)).
Proof. split; reflexivity. Qed.

(** C9.  [Equal] holds exactly when both values are invalid, or both are
    valid and their [Val] fields are equal under [==]; two invalid values
    are equal whatever their [Val] fields hold. *)
Theorem Equal_spec (a b : Null T) :
  (Equal a b = true <->
     (Valid a = false /\ Valid b = false)
     \/ (Valid a = true /\ Valid b = true /\ go_eq (Val a) (Val b) = true))
  /\ (forall x y : T,
        Equal {| Val := x; Valid := false |} {| Val := y; Valid := false |}
        = true).
Proof.
  split; [|reflexivity].
  destruct a as [x [|]], b as [y [|]]; unfold Equal; simpl; split;
    intuition congruence.
Qed.

(** C10.  The two ways of decoding an absent value: [Scan(nil)] marks the
    instance invalid and stores the zero value of [T]; [UnmarshalJSON] of
    the null literal marks it invalid and keeps the stored [Val]. *)
Theorem null_decoding_paths (n : Null T) :
  Scan n nil_any = ({| Val := zero; Valid := false |}, None)
  /\ UnmarshalJSON n nullBytes = ({| Val := Val n; Valid := false |}, None).
Proof. split; reflexivity. Qed.

(** C4, on the code.  When the payload is not the null literal and
    [json.Unmarshal] fails on it, [UnmarshalJSON] returns that error,
    wrapped, but does not assign [Valid]: an instance that was valid is
    still marked valid after the failure, where [Scan] sets
    [Valid = (err == nil)] and the package's tests expect an invalid
    instance. *)
Theorem UnmarshalJSON_failure_keeps_Valid
  (n : Null T) (data : bytes) (v : T) (e : error) :
  bytes_Equal data nullBytes = false ->
  json_Unmarshal data (Val n) = (v, Some e) ->
  UnmarshalJSON n data
  = ({| Val := v; Valid := Valid n |},
     Some (wrapError (bs "null: couldn't unmarshal JSON") e)).
Proof.
  intros Hnull Hdec. unfold UnmarshalJSON. now rewrite Hnull, Hdec.
Qed.

End NullFacts.

(** C4 at a concrete input: a valid [Null[int]] and the payload [true]. *)
Lemma UnmarshalJSON_failure_keeps_Valid_witness :
  @UnmarshalJSON _ Null_int {| Val := 7; Valid := true |} (bs "true")
  = ({| Val := 7; Valid := true |},
     Some (wrapError (bs "null: couldn't unmarshal JSON")
                     (UnmarshalTypeError (bs "bool")))).
Proof.
  apply (@UnmarshalJSON_failure_keeps_Valid _ Null_int
           {| Val := 7; Valid := true |} (bs "true") 7
           (UnmarshalTypeError (bs "bool"))); reflexivity.
Defined.

(** The same input, evaluated: decoding the payload [true] into a valid
    [Null[int]] fails in [json.Unmarshal] and [UnmarshalJSON] returns an
    error, but the instance is still marked valid. *)
Lemma UnmarshalJSON_failure_leaves_valid :
  let n : Null (GoVal (KInt Kint)) := {| Val := 7; Valid := true |} in
  let data := bs "true" in
  snd (@json_Unmarshal _ Null_int data (Val n)) <> None
  /\ snd (@UnmarshalJSON _ Null_int n data) <> None
  /\ Valid (fst (@UnmarshalJSON _ Null_int n data)) <> false.
Proof. repeat split; vm_compute; discriminate. Qed.

(* ================================================================== *)
(** ** tx.go: finalization *)

Lemma count_events_app (p : Event -> bool) (a b : Trace) :
  count_events p (a ++ b) = (count_events p a + count_events p b)%nat.
Proof. unfold count_events. now rewrite filter_app, length_app. Qed.

Section TxFacts.
Variable d : Driver.

(** A unit of work only adds statement events to the trace. *)
Lemma run_trace (t : Tx) (w : Work) :
  forall tr o tr',
    run d t w tr = (o, tr') ->
    exists evs,
      tr' = tr ++ evs
      /\ count_events is_commit evs = 0%nat
      /\ count_events is_rollback evs = 0%nat.
Proof.
  induction w as [err|v|s k IH]; simpl; intros tr o tr' E.
  - inversion E; subst. exists []. now rewrite app_nil_r.
  - inversion E; subst. exists []. now rewrite app_nil_r.
  - apply IH in E as (evs & -> & Hc & Hr).
    exists (EvStmt (Tx_Tx t) s :: evs). rewrite <- app_assoc. simpl.
    repeat split; unfold count_events in *; simpl; assumption.
Qed.

(** What the deferred function adds to the trace: the commit or the
    rollback, between at most two lines of log. *)
Lemma deferred_trace (ctx : Context) (tx : Tx) (r : any)
  (err : option error) (tr : Trace) :
  exists evs,
    snd (TxWithOpts_deferred d ctx tx r err tr) = tr ++ evs
    /\ count_events is_commit evs = (if is_nil err then 1 else 0)%nat
    /\ count_events is_rollback evs = (if is_nil err then 0 else 1)%nat.
Proof.
  unfold TxWithOpts_deferred.
  set (tr1 := match r with nil_any => tr | _ => _ end).
  assert (Hlog : exists l, tr1 = tr ++ l /\ count_events is_commit l = 0%nat
                           /\ count_events is_rollback l = 0%nat).
  { destruct r; subst tr1;
      try (exists []; rewrite app_nil_r; now auto);
      eexists [_]; repeat split; reflexivity. }
  destruct Hlog as (l & -> & Hc & Hr).
  destruct err as [e|]; simpl;
    match goal with
    | |- context [if ?b then _ else _] => destruct b
    end; simpl;
    eexists; repeat rewrite <- app_assoc;
    (split; [reflexivity|]);
    rewrite !count_events_app, Hc, Hr; split; reflexivity.
Qed.

(** C3.  After a successful acquire, a unit of work that returns normally
    has its transaction finalized exactly once: the events of the call
    hold one commit and no rollback when it returned no error, and one
    rollback and no commit when it returned an error. *)
Theorem TxWithOpts_finalizes_once
  (ctx : Context) (fn : Tx -> Work) (opts : option TxOptions) (tr : Trace)
  (h : nat) (err : option error) (tr2 : Trace) :
  BeginTx d tr ctx opts = (h, None) ->
  (let tx := {| Tx_Context := WithValue ctx txKeyType (any_Access h);
                Tx_Tx := h |} in
   run d tx (fn tx) (tr ++ [EvBegin opts]) = (Returned err, tr2)) ->
  exists evs,
    snd (TxWithOpts d ctx fn opts tr) = tr ++ evs
    /\ count_events is_commit evs = (if is_nil err then 1 else 0)%nat
    /\ count_events is_rollback evs = (if is_nil err then 0 else 1)%nat.
Proof.
  intros Hb Hrun. cbv zeta in Hrun.
  unfold TxWithOpts, AcquireWithOpts. rewrite Hb, Hrun.
  destruct (run_trace _ _ _ _ _ Hrun) as (work & -> & Hwc & Hwr).
  match goal with
  | |- context [TxWithOpts_deferred d ?c ?t ?r ?e ?x] =>
    destruct (deferred_trace c t r e x) as (fin & Hfin & Hfc & Hfr);
    destruct (TxWithOpts_deferred d c t r e x) as [err' tr3]
  end.
  simpl in Hfin |- *. subst tr3.
  exists ([EvBegin opts] ++ work ++ fin).
  rewrite <- !app_assoc. split; [reflexivity|].
  rewrite !count_events_app, Hwc, Hwr, Hfc, Hfr.
  split; reflexivity.
Qed.

(** C1, on the code.  When the unit of work panics, the panic is
    recovered and [TxWithOpts] returns nil, but the local [err] is still
    the nil left by the acquire: the transaction is committed, not rolled
    back. *)
Theorem TxWithOpts_panic_commits
  (ctx : Context) (fn : Tx -> Work) (opts : option TxOptions) (tr : Trace)
  (h : nat) (v : any) (tr2 : Trace) :
  BeginTx d tr ctx opts = (h, None) ->
  (let tx := {| Tx_Context := WithValue ctx txKeyType (any_Access h);
                Tx_Tx := h |} in
   run d tx (fn tx) (tr ++ [EvBegin opts]) = (Panicked v, tr2)) ->
  exists evs,
    TxWithOpts d ctx fn opts tr = (Returned None, tr ++ evs)
    /\ count_events is_commit evs = 1%nat
    /\ count_events is_rollback evs = 0%nat.
Proof.
  intros Hb Hrun. cbv zeta in Hrun.
  unfold TxWithOpts, AcquireWithOpts. rewrite Hb, Hrun.
  destruct (run_trace _ _ _ _ _ Hrun) as (work & -> & Hwc & Hwr).
  match goal with
  | |- context [TxWithOpts_deferred d ?c ?t ?r ?e ?x] =>
    destruct (deferred_trace c t r e x) as (fin & Hfin & Hfc & Hfr);
    destruct (TxWithOpts_deferred d c t r e x) as [err' tr3]
  end.
  simpl in Hfin, Hfc, Hfr. subst tr3.
  exists ([EvBegin opts] ++ work ++ fin).
  rewrite <- !app_assoc. split; [reflexivity|].
  rewrite !count_events_app, Hwc, Hwr, Hfc, Hfr.
  split; reflexivity.
Qed.

(** C2, on the code.  When the unit of work returns [err], [TxWithOpts]
    returns [err], whatever the commit or the rollback answers: the
    deferred function assigns the error of the finalization to the local
    variable [err] after the result has been set, and that error is
    lost. *)
Theorem TxWithOpts_returns_work_error
  (ctx : Context) (fn : Tx -> Work) (opts : option TxOptions) (tr : Trace)
  (h : nat) (err : option error) (tr2 : Trace) :
  BeginTx d tr ctx opts = (h, None) ->
  (let tx := {| Tx_Context := WithValue ctx txKeyType (any_Access h);
                Tx_Tx := h |} in
   run d tx (fn tx) (tr ++ [EvBegin opts]) = (Returned err, tr2)) ->
  let tx := {| Tx_Context := WithValue ctx txKeyType (any_Access h);
               Tx_Tx := h |} in
  exists (finalization : option error) (tr3 : Trace),
    TxWithOpts_deferred d ctx tx nil_any err tr2 = (finalization, tr3)
    /\ TxWithOpts d ctx fn opts tr = (Returned err, tr3).
Proof.
  intros Hb Hrun tx. cbv zeta in Hrun. fold tx in Hrun.
  unfold TxWithOpts, AcquireWithOpts. rewrite Hb. fold tx. rewrite Hrun.
  destruct (TxWithOpts_deferred d ctx tx nil_any err tr2) as [fe tr3].
  now exists fe, tr3.
Qed.

End TxFacts.

(** C3 at a concrete input: one statement, then a normal return. *)
Lemma TxWithOpts_finalizes_once_witness :
  exists evs,
    snd (TxWithOpts (sample_driver None) [] (insert_then_return None)
                    (Some DefaultTxOpts) [])
    = [] ++ evs
    /\ count_events is_commit evs = 1%nat
    /\ count_events is_rollback evs = 0%nat.
Proof.
  eapply (TxWithOpts_finalizes_once (sample_driver None) []
            (insert_then_return None) (Some DefaultTxOpts) [] 1 None);
    reflexivity.
Defined.

(** C1 at a concrete input: the unit of work inserts a row and panics;
    the insert is committed and the caller is told nothing. *)
Lemma TxWithOpts_panic_commits_witness :
  exists evs,
    TxWithOpts (sample_driver None) [] insert_then_panic
               (Some DefaultTxOpts) []
    = (Returned None, [] ++ evs)
    /\ count_events is_commit evs = 1%nat
    /\ count_events is_rollback evs = 0%nat.
Proof.
  eapply (TxWithOpts_panic_commits (sample_driver None) []
            insert_then_panic (Some DefaultTxOpts) [] 1);
    reflexivity.
Defined.

(** C2 at a concrete input: the unit of work succeeds, the commit fails,
    and [TxWithOpts] reports success. *)
Lemma TxWithOpts_returns_work_error_witness :
  let fail := errorString (bs "driver: bad connection") in
  fst (TxWithOpts_deferred (sample_driver (Some fail)) []
         {| Tx_Context := [(txKeyType, any_Access 1)]; Tx_Tx := 1 |}
         nil_any None
         [EvBegin (Some DefaultTxOpts);
          EvStmt 1 (StExec (bs "INSERT INTO t VALUES (1)") [])])
  = Some fail
  /\ fst (TxWithOpts (sample_driver (Some fail)) []
                     (insert_then_return None) (Some DefaultTxOpts) [])
     = Returned None.
Proof.
  intros fail. split; [reflexivity|].
  destruct (TxWithOpts_returns_work_error (sample_driver (Some fail)) []
              (insert_then_return None) (Some DefaultTxOpts) [] 1 None
              [EvBegin (Some DefaultTxOpts);
               EvStmt 1 (StExec (bs "INSERT INTO t VALUES (1)") [])]
              eq_refl eq_refl) as (fe & tr3 & _ & Hr).
  now rewrite Hr.
Defined.

(* ================================================================== *)
(** ** The row helper [QueryRow] *)

(** C8.  When the single-row query finds no row, [QueryRow] returns a
    [*NotFoundError] whose [DataSource] is the string bound to
    [CtxDataSourceKey{}] in the context; when no string is bound there,
    the type assertion panics.  Any other error of the scan is returned
    as it is. *)
Theorem QueryRow_not_found {T : Type} (d : Driver) (zeroT : T)
  (conv : list any -> T -> T * option error)
  (ctx : Tx) (query : bytes) (binder : T -> list any) (args : list any)
  (tr : Trace) :
  let row := sqlTx_stmt d tr (Tx_Tx ctx) (Tx_Context ctx)
                        (StQueryRow query args) in
  let res := fst (QueryRow d zeroT conv ctx query binder args tr) in
  (reply_err row = None -> reply_rows row = [] ->
     (forall ds,
        ctx_Value (Tx_Context ctx) CtxDataSourceKey = any_string ds ->
        res = Returned (zeroT, Some (NotFoundErrorPtr ds)))
     /\ ((forall ds,
           ctx_Value (Tx_Context ctx) CtxDataSourceKey <> any_string ds) ->
         exists v, res = Panicked v))
  /\ (forall result e,
        Row_Scan conv row zeroT = (result, Some e) ->
        e <> ErrNoRows ->
        res = Returned (result, Some e)).
Proof.
  intros row res. subst res. unfold QueryRow, Tx_call. fold row.
  split.
  - intros He Hr. unfold Row_Scan. rewrite He, Hr. split.
    + intros ds Hds. now rewrite Hds.
    + intros Hno.
      destruct (ctx_Value (Tx_Context ctx) CtxDataSourceKey) eqn:E;
        try (eexists; reflexivity).
      now destruct (Hno s).
  - intros result e Hscan Hne. rewrite Hscan.
    destruct e; try reflexivity. now destruct Hne.
Qed.

(** C8 at a concrete input: no row, and the data source "users". *)
Lemma QueryRow_not_found_witness :
  fst (QueryRow (sample_driver None) 0 (fun _ v => (v, None)) users_ctx
                (bs "SELECT id FROM users WHERE id = ?")
                (fun _ => []) [any_int Kint 7] [])
  = Returned (0, Some (NotFoundErrorPtr (bs "users"))).
Proof.
  exact (proj1 (proj1 (QueryRow_not_found (sample_driver None) 0
                         (fun _ v => (v, None)) users_ctx
                         (bs "SELECT id FROM users WHERE id = ?")
                         (fun _ => []) [any_int Kint 7] [])
                      eq_refl eq_refl)
               (bs "users") eq_refl).
Defined.

(* ================================================================== *)
(** ** The text codec on integers *)

(** *** Bytes as numbers *)

Lemma byte_val_range (c : ascii) : 0 <= byte_val c < 256.
Proof.
  unfold byte_val. pose proof (N_ascii_bounded c) as B. lia.
Qed.

Lemma byte_val_of (z : Z) : 0 <= z < 256 -> byte_val (byte_of z) = z.
Proof.
  intros Hz. unfold byte_val, byte_of.
  rewrite N_ascii_embedding by lia. lia.
Qed.

Lemma byte_of_val (c : ascii) : byte_of (byte_val c) = c.
Proof.
  unfold byte_val, byte_of. rewrite N2Z.id. apply ascii_N_embedding.
Qed.

Lemma byte_val_inj (a b : ascii) : byte_val a = byte_val b -> a = b.
Proof.
  intros E. rewrite <- (byte_of_val a), <- (byte_of_val b). now rewrite E.
Qed.

Lemma isDigit_spec (c : ascii) :
  isDigit c = true <-> 48 <= byte_val c <= 57.
Proof. unfold isDigit. lia. Qed.

Lemma digit_char (x : Z) :
  0 <= x < 10 ->
  isDigit (byte_of (48 + x)) = true /\ byte_val (byte_of (48 + x)) - 48 = x.
Proof.
  intros Hx. rewrite isDigit_spec, byte_val_of by lia. lia.
Qed.

(** *** strconv: printing and parsing decimals *)

Lemma parse_digits_app (a b : bytes) :
  forall acc,
    parse_digits (a ++ b) acc =
    match parse_digits a acc with
    | Some x => parse_digits b x
    | None => None
    end.
Proof.
  induction a as [|c a IH]; intros acc; simpl; [reflexivity|].
  destruct (isDigit c); [apply IH | reflexivity].
Qed.

Lemma format_digits_acc (fuel : nat) :
  forall u acc, format_digits fuel u acc = format_digits fuel u [] ++ acc.
Proof.
  induction fuel as [|f IH]; intros u acc; simpl; [reflexivity|].
  destruct (u <? 10); [reflexivity|].
  rewrite (IH _ (_ :: acc)), (IH _ [_]), <- app_assoc. reflexivity.
Qed.

Lemma log2_div10 (u : Z) : 10 <= u -> Z.log2 (u / 10) < Z.log2 u.
Proof.
  intros Hu.
  assert (H2 : Z.log2 (u / 2) = Z.log2 u - 1).
  { change 2 with (2 ^ 1). rewrite <- Z.shiftr_div_pow2 by lia.
    rewrite Z.log2_shiftr by lia.
    assert (1 <= Z.log2 u) by (apply Z.log2_le_pow2; simpl; lia). lia. }
  assert (Hle : Z.log2 (u / 10) <= Z.log2 (u / 2)).
  { apply Z.log2_le_mono. 
    apply Z.div_le_compat_l; lia. }
  lia.
Qed.

(** The digits printed for [u]: a leading digit and more digits; the
    leading digit is [0] only for zero, which has no other digit; parsing
    them gives [u] back. *)
Lemma format_digits_spec (fuel : nat) :
  forall u,
    0 <= u -> Z.log2 u < Z.of_nat fuel ->
    exists c ds,
      format_digits fuel u [] = c :: ds
      /\ isDigit c = true
      /\ Forall (fun x => isDigit x = true) ds
      /\ (c = "0"%char -> u = 0 /\ ds = [])
      /\ parse_digits (c :: ds) 0 = Some u.
Proof.
  induction fuel as [|f IH]; intros u Hu Hlog.
  - pose proof (Z.log2_nonneg u). lia.
  - cbn [format_digits]. destruct (Z.ltb_spec u 10) as [Hlt|Hge].
    + destruct (digit_char u ltac:(lia)) as [Hd Hv].
      exists (byte_of (48 + u)), [].
      split; [reflexivity|]. split; [assumption|]. split; [constructor|].
      split.
      * intros H. apply (f_equal byte_val) in H.
        rewrite byte_val_of in H by lia.
        change (byte_val "0") with 48 in H. split; [lia|reflexivity].
      * cbn [parse_digits]. rewrite Hd. f_equal. lia.
    + rewrite format_digits_acc.
      assert (Hq : 0 <= u / 10) by (apply Z.div_pos; lia).
      assert (Hq1 : 1 <= u / 10) by (apply Z.div_le_lower_bound; lia).
      destruct (IH (u / 10) Hq) as (c & ds & E & Hc & Hds & Hz & Hp).
      { pose proof (log2_div10 u Hge). lia. }
      rewrite E.
      destruct (digit_char (u mod 10)) as [Hd Hv].
      { apply Z.mod_pos_bound; lia. }
      exists c, (ds ++ [byte_of (48 + u mod 10)]).
      split; [reflexivity|]. split; [assumption|].
      split; [apply Forall_app; split; auto|].
      split.
      * intros Hc0. destruct (Hz Hc0). lia.
      * change (c :: ds ++ [byte_of (48 + u mod 10)])
          with ((c :: ds) ++ [byte_of (48 + u mod 10)]).
        rewrite parse_digits_app, Hp. cbn [parse_digits]. rewrite Hd, Hv.
        f_equal. pose proof (Z.div_mod u 10). lia.
Qed.

Lemma FormatUint_spec (u : Z) :
  0 <= u ->
  exists c ds,
    FormatUint u = c :: ds
    /\ isDigit c = true
    /\ Forall (fun x => isDigit x = true) ds
    /\ (c = "0"%char -> u = 0 /\ ds = [])
    /\ parse_digits (c :: ds) 0 = Some u.
Proof.
  intros Hu. apply format_digits_spec; [assumption|].
  pose proof (Z.log2_nonneg u). lia.
Qed.

(** *** The scanner and the decoder on numbers *)

Lemma skip_digits_all (ds : bytes) :
  Forall (fun x => isDigit x = true) ds -> skip_digits ds = [].
Proof.
  induction 1 as [|c ds Hc _ IH]; simpl; [reflexivity|]. now rewrite Hc.
Qed.

Ltac each_byte c :=
  destruct c as [[|] [|] [|] [|] [|] [|] [|] [|]].

(** What the code does with a text that starts like a number. *)
Lemma number_head (c : ascii) :
  isDigit c = true \/ c = "-"%char ->
  isSpace c = false
  /\ byte_eqb c "n" = false
  /\ (forall f r, scan (S f) scanValue (c :: r) = scan_number (c :: r))
  /\ (forall K r v,
        match c :: r with
        | "{"%char :: _ => (v, Some (UnmarshalTypeError (bs "object")))
        | "["%char :: _ => (v, Some (UnmarshalTypeError (bs "array")))
        | item => literalStore K item v
        end = literalStore K (c :: r) v)
  /\ (forall k r v,
        literalStore (KInt k) (c :: r) v = store_number k (c :: r) v).
Proof.
  intros H.
  each_byte c;
    try (repeat split; reflexivity);
    exfalso; destruct H as [H|H]; vm_compute in H; discriminate.
Qed.

Lemma digit_head (c : ascii) :
  isDigit c = true ->
  (forall r,
     scan_number (c :: r) =
     if byte_eqb c "0" then scan_frac r else scan_frac (skip_digits r))
  /\ (forall r,
        scan_number ("-"%char :: c :: r) =
        if byte_eqb c "0" then scan_frac r else scan_frac (skip_digits r))
  /\ (forall r,
        ParseInt (c :: r) =
        match parse_digits (c :: r) 0 with
        | None => None
        | Some un => if 2 ^ 63 <=? un then None else Some un
        end).
Proof.
  intros H.
  each_byte c;
    try (repeat split; reflexivity);
    exfalso; vm_compute in H; discriminate.
Qed.

Lemma scan_number_digits (c : ascii) (ds : bytes) :
  isDigit c = true ->
  Forall (fun x => isDigit x = true) ds ->
  (c = "0"%char -> ds = []) ->
  scan_number (c :: ds) = Some [] /\ scan_number ("-"%char :: c :: ds) = Some [].
Proof.
  intros Hc Hds Hz.
  destruct (digit_head c Hc) as (E1 & E2 & _). rewrite E1, E2.
  destruct (byte_eqb c "0") eqn:E0.
  - apply Ascii.eqb_eq in E0. rewrite (Hz E0). split; reflexivity.
  - rewrite skip_digits_all by assumption. split; reflexivity.
Qed.

(** The decimal text of an integer is valid JSON, and is its own value
    text. *)
Lemma FormatInt_head (i : Z) :
  exists c r, FormatInt i = c :: r /\ (isDigit c = true \/ c = "-"%char).
Proof.
  unfold FormatInt. destruct (i <? 0) eqn:E.
  - eexists _, _. split; [reflexivity|]. now right.
  - destruct (FormatUint_spec i) as (c & ds & Ef & Hc & _); [lia|].
    exists c, ds. split; [assumption|]. now left.
Qed.

Lemma FormatInt_scan (i : Z) : scan_number (FormatInt i) = Some [].
Proof.
  unfold FormatInt. destruct (Z.ltb_spec i 0) as [Hneg|Hpos].
  - destruct (FormatUint_spec (- i)) as (c & ds & Ef & Hc & Hds & Hz & _);
      [lia|].
    rewrite Ef. apply scan_number_digits; auto. intros E. now destruct (Hz E).
  - destruct (FormatUint_spec i) as (c & ds & Ef & Hc & Hds & Hz & _);
      [lia|].
    rewrite Ef. apply scan_number_digits; auto. intros E. now destruct (Hz E).
Qed.

Lemma scan_number_head (c : ascii) (r : bytes) :
  scan_number (c :: r) <> None -> isDigit c = true \/ c = "-"%char.
Proof.
  intros H.
  each_byte c;
    try (left; reflexivity); try (right; reflexivity);
    exfalso; apply H; reflexivity.
Qed.

(** A payload that is exactly a number literal. *)
Lemma number_payload (data : bytes) :
  scan_number data = Some [] ->
  bytes_Equal data nullBytes = false
  /\ checkValid data = true
  /\ json_item data = data
  /\ (forall k v,
        json_Unmarshal_kind (KInt k) data v = store_number k data v).
Proof.
  intros Hscan.
  assert (Hhead : exists c r, data = c :: r
                              /\ (isDigit c = true \/ c = "-"%char)).
  { destruct data as [|c r]; [discriminate|].
    exists c, r. split; [reflexivity|].
    apply (scan_number_head c r). now rewrite Hscan. }
  destruct Hhead as (c & r & -> & Hc).
  destruct (number_head c Hc) as (Hsp & Hn & Hsc & Hm & Hl).
  assert (Hws : skip_ws (c :: r) = c :: r) by (simpl; now rewrite Hsp).
  assert (Hv : checkValid (c :: r) = true).
  { unfold checkValid, scan_fuel. now rewrite Hws, Hsc, Hscan. }
  assert (Hi : json_item (c :: r) = c :: r).
  { unfold json_item, scan_fuel. rewrite Hws, Hsc, Hscan.
    rewrite Nat.sub_0_r. apply firstn_all. }
  split; [|split; [|split]]; auto.
  - simpl. now rewrite Hn.
  - intros k v. unfold json_Unmarshal_kind. rewrite Hv, Hi. simpl negb.
    cbv iota. rewrite Hm. apply Hl.
Qed.

(** [ParseInt] and [ParseUint] read back what [FormatInt] and
    [FormatUint] print. *)
Lemma ParseInt_FormatInt (i : Z) :
  - 2 ^ 63 <= i < 2 ^ 63 -> ParseInt (FormatInt i) = Some i.
Proof.
  intros Hi. unfold FormatInt. destruct (Z.ltb_spec i 0) as [Hneg|Hpos].
  - destruct (FormatUint_spec (- i)) as (c & ds & Ef & Hc & _ & _ & Hp);
      [lia|].
    rewrite Ef. unfold ParseInt. rewrite Hp.
    destruct (Z.leb_spec (2 ^ 63) (- i)), (Z.ltb_spec (2 ^ 63) (- i));
      simpl; try lia; f_equal; lia.
  - destruct (FormatUint_spec i) as (c & ds & Ef & Hc & _ & _ & Hp); [lia|].
    rewrite Ef. destruct (digit_head c Hc) as (_ & _ & E). rewrite E, Hp.
    destruct (Z.leb_spec (2 ^ 63) i); [lia|reflexivity].
Qed.

Lemma ParseUint_FormatUint (u : Z) :
  0 <= u < 2 ^ 64 -> ParseUint (FormatUint u) = Some u.
Proof.
  intros Hu.
  destruct (FormatUint_spec u) as (c & ds & Ef & _ & _ & _ & Hp); [lia|].
  rewrite Ef. unfold ParseUint. rewrite Hp.
  destruct (Z.ltb_spec u (2 ^ 64)); [reflexivity|lia].
Qed.

(** The text codec round-trips on every integer of every kind. *)
Lemma json_int_roundtrip (k : IntKind) (i v : Z) :
  int_min k <= i <= int_max k ->
  exists data,
    json_Marshal_kind (KInt k) i = (data, None)
    /\ bytes_Equal data nullBytes = false
    /\ json_Unmarshal_kind (KInt k) data v = (i, None).
Proof.
  intros Hi.
  assert (Hdata : json_Marshal_kind (KInt k) i = (FormatInt i, None)).
  { destruct k; try reflexivity. simpl in Hi |- *.
    unfold FormatInt. destruct (Z.ltb_spec i 0); [lia|reflexivity]. }
  exists (FormatInt i). split; [assumption|].
  destruct (number_payload _ (FormatInt_scan i)) as (Hn & _ & _ & Hs).
  split; [assumption|]. rewrite Hs. unfold store_number, Overflow.
  assert (Hparse :
    match k with Kbyte => ParseUint (FormatInt i) | _ => ParseInt (FormatInt i) end
    = Some i).
  { destruct k; simpl in Hi;
      try (apply ParseInt_FormatInt; lia).
    unfold FormatInt. destruct (Z.ltb_spec i 0); [lia|].
    apply ParseUint_FormatUint; lia. }
  rewrite Hparse.
  destruct (Z.ltb_spec i (int_min k)), (Z.ltb_spec (int_max k) i);
    simpl; try lia; reflexivity.
Qed.

(** *** Numbers that are not integers *)

Lemma take_digits_spec (s : bytes) :
  forall ds r,
    take_digits s = (ds, r) ->
    s = ds ++ r
    /\ Forall (fun x => isDigit x = true) ds
    /\ match r with [] => True | x :: _ => isDigit x = false end.
Proof.
  induction s as [|c s IH]; simpl; intros ds r E.
  - inversion E; subst. auto.
  - destruct (isDigit c) eqn:Hc.
    + destruct (take_digits s) as [ds' r'].
      inversion E; subst. destruct (IH _ _ eq_refl) as (-> & Hds & Hr).
      repeat split; auto.
    + inversion E; subst. simpl. rewrite Hc. auto.
Qed.

Lemma parse_digits_stop (ds : bytes) (x : ascii) (r : bytes) :
  Forall (fun c => isDigit c = true) ds ->
  isDigit x = false ->
  forall acc, parse_digits (ds ++ x :: r) acc = None.
Proof.
  intros Hds Hx. induction Hds as [|c ds Hc _ IH]; intros acc; simpl.
  - now rewrite Hx.
  - rewrite Hc. apply IH.
Qed.

(** A number with a fractional value has something after its integer
    digits. *)
Lemma non_integral_shape (s : bytes) :
  json_number_integral s = false ->
  exists ds x r,
    unsigned_part s = ds ++ x :: r
    /\ Forall (fun c => isDigit c = true) ds
    /\ isDigit x = false.
Proof.
  unfold json_number_integral.
  destruct (take_digits (unsigned_part s)) as [ip r1] eqn:E.
  destruct (take_digits_spec _ _ _ E) as (Es & Hip & Hr1).
  destruct r1 as [|x r].
  - simpl. discriminate.
  - intros _. now exists ip, x, r.
Qed.

Lemma non_integral_unparsed (data : bytes) :
  scan_number data = Some [] ->
  json_number_integral data = false ->
  ParseInt data = None /\ ParseUint data = None.
Proof.
  intros Hscan Hni.
  destruct (non_integral_shape _ Hni) as (ds & x & r & Es & Hds & Hx).
  destruct data as [|c data']; [discriminate|].
  destruct (scan_number_head c data') as [Hc|Hc]; [now rewrite Hscan| |].
  - assert (Eu : unsigned_part (c :: data') = c :: data').
    { each_byte c; try reflexivity. vm_compute in Hc. discriminate. }
    rewrite Eu in Es.
    destruct (digit_head c Hc) as (_ & _ & Ep). rewrite Ep.
    unfold ParseUint. rewrite Es, (parse_digits_stop ds x r Hds Hx).
    destruct (ds ++ x :: r); split; reflexivity.
  - subst c. simpl in Es. subst data'. unfold ParseInt, ParseUint.
    rewrite (parse_digits_stop ds x r Hds Hx).
    split; [|reflexivity]. now destruct ds.
Qed.

(** The decimal text of an integer in the range of its kind decodes to
    that integer, valid. *)
Lemma UnmarshalJSON_FormatInt (k : IntKind)
  (conv : Z -> any -> Z * option error) (n : Null Z) (i : Z) :
  int_min k <= i <= int_max k ->
  @UnmarshalJSON _ (Kind_GoType (KInt k) conv) n (FormatInt i)
  = ({| Val := i; Valid := true |}, None).
Proof.
  intros Hi.
  destruct (json_int_roundtrip k i (Val n) Hi) as (data & Hm & Hn & Hu).
  assert (data = FormatInt i) as ->.
  { destruct k; simpl in Hm, Hi; inversion Hm; try reflexivity.
    unfold FormatInt. destruct (Z.ltb_spec i 0); [lia|reflexivity]. }
  unfold UnmarshalJSON. rewrite Hn. simpl json_Unmarshal. now rewrite Hu.
Qed.

(** C6.  For every integer kind: the decimal text of the largest value of
    the kind decodes to that value, valid; the text of the next integer is
    refused with a decode error; and so is every JSON number whose value
    is not an integer.  A refused payload leaves the instance as it
    was. *)
Theorem UnmarshalJSON_integer_bounds (k : IntKind)
  (conv : Z -> any -> Z * option error) (n : Null Z) :
  let decode := @UnmarshalJSON _ (Kind_GoType (KInt k) conv) n in
  let refused (data : bytes) :=
    decode data
    = ({| Val := Val n; Valid := Valid n |},
       Some (wrapError (bs "null: couldn't unmarshal JSON")
                       (UnmarshalTypeError (bs "number " ++ data)))) in
  decode (FormatInt (int_max k))
  = ({| Val := int_max k; Valid := true |}, None)
  /\ refused (FormatInt (int_max k + 1))
  /\ (forall data,
        scan_number data = Some [] ->
        json_number_integral data = false ->
        refused data).
Proof.
  intros decode refused. subst decode refused. cbv beta.
  split; [|split].
  - apply UnmarshalJSON_FormatInt. destruct k; simpl; lia.
  - destruct k; vm_compute; reflexivity.
  - intros data Hnum Hni.
    destruct (number_payload data Hnum) as (Hn & _ & _ & Hs).
    destruct (non_integral_unparsed data Hnum Hni) as [Hpi Hpu].
    unfold UnmarshalJSON. rewrite Hn. simpl json_Unmarshal. rewrite Hs.
    unfold store_number. destruct k; rewrite ?Hpi, ?Hpu; reflexivity.
Qed.

Lemma UnmarshalJSON_integer_bounds_witness :
  @UnmarshalJSON _ Null_int {| Val := 0; Valid := false |} (bs "1.2345")
  = ({| Val := 0; Valid := false |},
     Some (wrapError (bs "null: couldn't unmarshal JSON")
                     (UnmarshalTypeError (bs "number 1.2345")))).
Proof.
  exact (proj2 (proj2 (UnmarshalJSON_integer_bounds Kint
                         (refuse_convert (KInt Kint))
                         {| Val := 0; Valid := false |}))
               (bs "1.2345") eq_refl eq_refl).
Defined.

(* ================================================================== *)
(** ** unicode/utf8: decoding and encoding agree *)

Lemma land_disjoint (a b k : Z) :
  0 <= k -> 0 <= b < 2 ^ k -> Z.land (a * 2 ^ k) b = 0.
Proof.
  intros Hk Hb. apply Z.bits_inj'. intros n Hn.
  rewrite Z.land_spec, Z.bits_0.
  destruct (Z.lt_ge_cases n k) as [Hlt|Hge].
  - now rewrite Z.mul_pow2_bits_low.
  - destruct (Z.eq_dec b 0) as [->|Hnz].
    + now rewrite Z.bits_0, andb_false_r.
    + assert (Hl : Z.log2 b < k) by (apply Z.log2_lt_pow2; lia).
      rewrite (Z.bits_above_log2 b n) by lia. apply andb_false_r.
Qed.

Lemma lor_disjoint (a b k : Z) :
  0 <= k -> 0 <= b < 2 ^ k -> Z.lor (a * 2 ^ k) b = a * 2 ^ k + b.
Proof.
  intros Hk Hb. rewrite <- Z.add_lor_land, land_disjoint by assumption. lia.
Qed.

Lemma land_low (a k : Z) : 0 <= k -> Z.land a (2 ^ k - 1) = a mod 2 ^ k.
Proof.
  intros Hk. rewrite <- Z.land_ones by assumption.
  now rewrite Z.ones_equiv, Z.sub_1_r.
Qed.

(** The bit operations of utf8.go as arithmetic. *)
Ltac bits_to_arith :=
  repeat first
    [ rewrite Z.shiftl_mul_pow2 by lia
    | rewrite Z.shiftr_div_pow2 by lia
    | progress change 0x1F with (2 ^ 5 - 1)
    | progress change 0x0F with (2 ^ 4 - 1)
    | progress change 0x07 with (2 ^ 3 - 1)
    | progress change 0x3F with (2 ^ 6 - 1)
    | rewrite land_low by lia ].


Ltac pow_consts :=
  repeat match goal with
         | |- context [2 ^ ?k] =>
           let v := eval vm_compute in (2 ^ k) in change (2 ^ k) with v in *
         | H : context [2 ^ ?k] |- _ =>
           let v := eval vm_compute in (2 ^ k) in change (2 ^ k) with v in *
         end.

Ltac lor_to_add :=
  repeat first
    [ progress change 0xC0 with (3 * 2 ^ 6)
    | progress change 0x80 with (2 * 2 ^ 6)
    | progress change 0xE0 with (14 * 2 ^ 4)
    | progress change 0xF0 with (30 * 2 ^ 3)
    | rewrite lor_disjoint by (pow_consts; lia) ].

Ltac decide_tests :=
  repeat (match goal with
          | |- context [?a <=? ?b] => destruct (Z.leb_spec a b)
          | |- context [?a <? ?b] => destruct (Z.ltb_spec a b)
          end; cbn [andb orb negb] in *; try lia).

Lemma EncodeRune_2 (r : Z) :
  0x80 <= r <= 0x7FF ->
  EncodeRune r
  = [byte_of (Z.lor 0xC0 (Z.shiftr r 6)); byte_of (Z.lor 0x80 (Z.land r 0x3F))].
Proof.
  intros H. unfold EncodeRune, MaxRune, RuneError.
  decide_tests; reflexivity.
Qed.

Lemma EncodeRune_3 (r : Z) :
  0x800 <= r <= 0xFFFF -> ~ (0xD800 <= r <= 0xDFFF) ->
  EncodeRune r
  = [byte_of (Z.lor 0xE0 (Z.shiftr r 12));
     byte_of (Z.lor 0x80 (Z.land (Z.shiftr r 6) 0x3F));
     byte_of (Z.lor 0x80 (Z.land r 0x3F))].
Proof.
  intros H Hs. unfold EncodeRune, MaxRune, RuneError.
  decide_tests; reflexivity.
Qed.

Lemma EncodeRune_4 (r : Z) :
  0x10000 <= r <= 0x10FFFF ->
  EncodeRune r
  = [byte_of (Z.lor 0xF0 (Z.shiftr r 18));
     byte_of (Z.lor 0x80 (Z.land (Z.shiftr r 12) 0x3F));
     byte_of (Z.lor 0x80 (Z.land (Z.shiftr r 6) 0x3F));
     byte_of (Z.lor 0x80 (Z.land r 0x3F))].
Proof.
  intros H. unfold EncodeRune, MaxRune, RuneError.
  decide_tests; reflexivity.
Qed.

Ltac euclid := pow_consts; Z.to_euclidean_division_equations; lia.

Lemma encode2 (p0 b1 : Z) :
  0xC2 <= p0 <= 0xDF -> 0x80 <= b1 <= 0xBF ->
  EncodeRune (Z.lor (Z.shiftl (Z.land p0 0x1F) 6) (Z.land b1 0x3F))
  = [byte_of p0; byte_of b1].
Proof.
  intros H0 H1. bits_to_arith.
  pose proof (Z.mod_pos_bound p0 (2 ^ 5) eq_refl) as M0.
  pose proof (Z.mod_pos_bound b1 (2 ^ 6) eq_refl) as M1.
  rewrite lor_disjoint by lia.
  set (rn := p0 mod 2 ^ 5 * 2 ^ 6 + b1 mod 2 ^ 6).
  assert (Hrn : rn = (p0 - 0xC0) * 64 + (b1 - 0x80)) by (subst rn; euclid).
  rewrite EncodeRune_2 by lia. bits_to_arith.
  assert (D : rn / 2 ^ 6 = p0 - 0xC0 /\ rn mod 2 ^ 6 = b1 - 0x80) by euclid.
  destruct D as [-> ->]. lor_to_add.
  repeat f_equal; pow_consts; lia.
Qed.

Lemma encode3 (p0 b1 b2 lo hi : Z) :
  first p0 = (3%nat, lo, hi) ->
  outside lo hi b1 = false -> outside 0x80 0xBF b2 = false ->
  EncodeRune (Z.lor (Z.lor (Z.shiftl (Z.land p0 0x0F) 12)
                           (Z.shiftl (Z.land b1 0x3F) 6))
                    (Z.land b2 0x3F))
  = [byte_of p0; byte_of b1; byte_of b2].
Proof.
  intros F O1 O2. unfold outside in O1, O2.
  apply orb_false_iff in O1 as [O1 O1'], O2 as [O2 O2'].
  apply Z.ltb_ge in O1, O1', O2, O2'.
  assert (R : 0xE0 <= p0 <= 0xEF /\ 0x80 <= lo /\ hi <= 0xBF
              /\ (p0 = 0xE0 -> 0xA0 <= lo) /\ (p0 = 0xED -> hi <= 0x9F)).
  { unfold first in F.
    repeat match type of F with
           | context [if ?b then _ else _] => destruct b eqn:?
           end; inversion F; subst; lia. }
  destruct R as (H0 & Hlo & Hhi & HE0 & HED).
  bits_to_arith.
  pose proof (Z.mod_pos_bound p0 (2 ^ 4) eq_refl) as M0.
  pose proof (Z.mod_pos_bound b1 (2 ^ 6) eq_refl) as M1.
  pose proof (Z.mod_pos_bound b2 (2 ^ 6) eq_refl) as M2.
  rewrite (lor_disjoint _ (b1 mod 2 ^ 6 * 2 ^ 6) 12) by (pow_consts; lia).
  replace (p0 mod 2 ^ 4 * 2 ^ 12 + b1 mod 2 ^ 6 * 2 ^ 6)
    with ((p0 mod 2 ^ 4 * 2 ^ 6 + b1 mod 2 ^ 6) * 2 ^ 6)
    by (pow_consts; lia).
  rewrite lor_disjoint by (pow_consts; lia).
  set (rn := (p0 mod 2 ^ 4 * 2 ^ 6 + b1 mod 2 ^ 6) * 2 ^ 6 + b2 mod 2 ^ 6).
  assert (Hrn : rn = ((p0 - 0xE0) * 64 + (b1 - 0x80)) * 64 + (b2 - 0x80))
    by (subst rn; euclid).
  rewrite EncodeRune_3 by lia. bits_to_arith.
  assert (D : rn / 2 ^ 12 = p0 - 0xE0
              /\ (rn / 2 ^ 6) mod 2 ^ 6 = b1 - 0x80
              /\ rn mod 2 ^ 6 = b2 - 0x80) by euclid.
  destruct D as (-> & -> & ->). lor_to_add.
  repeat f_equal; pow_consts; lia.
Qed.

Lemma encode4 (p0 b1 b2 b3 lo hi : Z) :
  first p0 = (4%nat, lo, hi) ->
  outside lo hi b1 = false -> outside 0x80 0xBF b2 = false ->
  outside 0x80 0xBF b3 = false ->
  EncodeRune (Z.lor (Z.lor (Z.lor (Z.shiftl (Z.land p0 0x07) 18)
                                  (Z.shiftl (Z.land b1 0x3F) 12))
                           (Z.shiftl (Z.land b2 0x3F) 6))
                    (Z.land b3 0x3F))
  = [byte_of p0; byte_of b1; byte_of b2; byte_of b3].
Proof.
  intros F O1 O2 O3. unfold outside in O1, O2, O3.
  apply orb_false_iff in O1 as [O1 O1'], O2 as [O2 O2'], O3 as [O3 O3'].
  apply Z.ltb_ge in O1, O1', O2, O2', O3, O3'.
  assert (R : 0xF0 <= p0 <= 0xF4 /\ 0x80 <= lo /\ hi <= 0xBF
              /\ (p0 = 0xF0 -> 0x90 <= lo) /\ (p0 = 0xF4 -> hi <= 0x8F)).
  { unfold first in F.
    repeat match type of F with
           | context [if ?b then _ else _] => destruct b eqn:?
           end; inversion F; subst; lia. }
  destruct R as (H0 & Hlo & Hhi & HF0 & HF4).
  bits_to_arith.
  pose proof (Z.mod_pos_bound p0 (2 ^ 3) eq_refl) as M0.
  pose proof (Z.mod_pos_bound b1 (2 ^ 6) eq_refl) as M1.
  pose proof (Z.mod_pos_bound b2 (2 ^ 6) eq_refl) as M2.
  pose proof (Z.mod_pos_bound b3 (2 ^ 6) eq_refl) as M3.
  rewrite (lor_disjoint _ (b1 mod 2 ^ 6 * 2 ^ 12) 18) by (pow_consts; lia).
  replace (p0 mod 2 ^ 3 * 2 ^ 18 + b1 mod 2 ^ 6 * 2 ^ 12)
    with ((p0 mod 2 ^ 3 * 2 ^ 6 + b1 mod 2 ^ 6) * 2 ^ 12)
    by (pow_consts; lia).
  rewrite (lor_disjoint _ (b2 mod 2 ^ 6 * 2 ^ 6) 12) by (pow_consts; lia).
  replace ((p0 mod 2 ^ 3 * 2 ^ 6 + b1 mod 2 ^ 6) * 2 ^ 12
           + b2 mod 2 ^ 6 * 2 ^ 6)
    with (((p0 mod 2 ^ 3 * 2 ^ 6 + b1 mod 2 ^ 6) * 2 ^ 6 + b2 mod 2 ^ 6)
          * 2 ^ 6)
    by (pow_consts; lia).
  rewrite lor_disjoint by (pow_consts; lia).
  set (rn := ((p0 mod 2 ^ 3 * 2 ^ 6 + b1 mod 2 ^ 6) * 2 ^ 6 + b2 mod 2 ^ 6)
             * 2 ^ 6 + b3 mod 2 ^ 6).
  assert (Hrn : rn = (((p0 - 0xF0) * 64 + (b1 - 0x80)) * 64 + (b2 - 0x80))
                     * 64 + (b3 - 0x80))
    by (subst rn; euclid).
  rewrite EncodeRune_4 by lia. bits_to_arith.
  assert (D : rn / 2 ^ 18 = p0 - 0xF0
              /\ (rn / 2 ^ 12) mod 2 ^ 6 = b1 - 0x80
              /\ (rn / 2 ^ 6) mod 2 ^ 6 = b2 - 0x80
              /\ rn mod 2 ^ 6 = b3 - 0x80) by euclid.
  destruct D as (-> & -> & -> & ->). lor_to_add.
  repeat f_equal; pow_consts; lia.
Qed.

Lemma first_cases (p0 : Z) (sz : nat) (lo hi : Z) :
  first p0 = (sz, lo, hi) ->
  sz = 0%nat
  \/ (sz = 2%nat /\ 0xC2 <= p0 <= 0xDF /\ lo = 0x80 /\ hi = 0xBF)
  \/ (sz = 3%nat /\ 0x80 <= lo /\ hi <= 0xBF)
  \/ (sz = 4%nat /\ 0x80 <= lo /\ hi <= 0xBF).
Proof.
  unfold first. intros F.
  repeat match type of F with
         | context [if ?b then _ else _] => destruct b eqn:?
         end; inversion F; subst; try (left; reflexivity);
    right; try (left; lia); right; try (left; lia); right; lia.
Qed.

Lemma outside_high (lo hi b : Z) :
  0x80 <= lo -> outside lo hi b = false -> 0x80 <= b.
Proof.
  unfold outside. intros Hlo O. apply orb_false_iff in O as [O _].
  apply Z.ltb_ge in O. lia.
Qed.

(** What [DecodeRune] finds at a high byte: an error of width one, or a
    well-formed sequence of two, three or four bytes. *)
Lemma DecodeRune_high (c0 : ascii) (r : bytes) :
  0x80 <= byte_val c0 ->
  DecodeRune (c0 :: r) = (RuneError, 1%nat)
  \/ (exists c1 rest rn, r = c1 :: rest /\ utf8_sequence [c0; c1] rn)
  \/ (exists c1 c2 rest rn,
        r = c1 :: c2 :: rest /\ utf8_sequence [c0; c1; c2] rn)
  \/ (exists c1 c2 c3 rest rn,
        r = c1 :: c2 :: c3 :: rest /\ utf8_sequence [c0; c1; c2; c3] rn).
Proof.
  intros H0.
  assert (L : (byte_val c0 <? 0x80) = false) by (apply Z.ltb_ge; lia).
  unfold DecodeRune at 1. rewrite L.
  destruct (first (byte_val c0)) as [[sz lo] hi] eqn:F.
  destruct (first_cases _ _ _ _ F)
    as [->|[(-> & Hp & -> & ->)|[(-> & Hlo & Hhi)|(-> & Hlo & Hhi)]]].
  - now left.
  - destruct r as [|c1 rest]; [now left|].
    destruct (outside 0x80 0xBF (byte_val c1)) eqn:O1; [now left|].
    right; left. exists c1, rest.
    exists (Z.lor (Z.shiftl (Z.land (byte_val c0) 0x1F) 6)
                  (Z.land (byte_val c1) 0x3F)).
    split; [reflexivity|].
    pose proof (outside_high 0x80 0xBF _ ltac:(lia) O1) as H1.
    split; [repeat constructor; assumption|]. split.
    + cbn [Nat.leb Nat.ltb List.length].
      unfold outside in O1. apply orb_false_iff in O1 as [O1 O1'].
      apply Z.ltb_ge in O1, O1'.
      rewrite encode2 by lia. now rewrite !byte_of_val.
    + intros t. unfold DecodeRune. cbn [app]. rewrite L, F.
      cbn [Nat.leb Nat.ltb List.length]. now rewrite O1.
  - destruct r as [|c1 [|c2 rest]];
      cbn [Nat.leb Nat.ltb List.length]; try (now left).
    destruct (outside lo hi (byte_val c1)) eqn:O1; [now left|].
    destruct (outside 0x80 0xBF (byte_val c2)) eqn:O2; [now left|].
    right; right; left. exists c1, c2, rest.
    exists (Z.lor (Z.lor (Z.shiftl (Z.land (byte_val c0) 0x0F) 12)
                         (Z.shiftl (Z.land (byte_val c1) 0x3F) 6))
                  (Z.land (byte_val c2) 0x3F)).
    split; [reflexivity|].
    pose proof (outside_high _ _ _ Hlo O1) as H1.
    pose proof (outside_high 0x80 0xBF _ ltac:(lia) O2) as H2.
    split; [repeat constructor; assumption|]. split.
    + rewrite (encode3 _ _ _ lo hi) by assumption. now rewrite !byte_of_val.
    + intros t. unfold DecodeRune. cbn [app]. rewrite L, F.
      cbn [Nat.leb Nat.ltb List.length]. now rewrite O1, O2.
  - destruct r as [|c1 [|c2 [|c3 rest]]];
      cbn [Nat.leb Nat.ltb List.length]; try (now left).
    destruct (outside lo hi (byte_val c1)) eqn:O1; [now left|].
    destruct (outside 0x80 0xBF (byte_val c2)) eqn:O2; [now left|].
    destruct (outside 0x80 0xBF (byte_val c3)) eqn:O3; [now left|].
    right; right; right. exists c1, c2, c3, rest.
    exists (Z.lor (Z.lor (Z.lor (Z.shiftl (Z.land (byte_val c0) 0x07) 18)
                                (Z.shiftl (Z.land (byte_val c1) 0x3F) 12))
                         (Z.shiftl (Z.land (byte_val c2) 0x3F) 6))
                  (Z.land (byte_val c3) 0x3F)).
    split; [reflexivity|].
    pose proof (outside_high _ _ _ Hlo O1) as H1.
    pose proof (outside_high 0x80 0xBF _ ltac:(lia) O2) as H2.
    pose proof (outside_high 0x80 0xBF _ ltac:(lia) O3) as H3.
    split; [repeat constructor; assumption|]. split.
    + rewrite (encode4 _ _ _ _ lo hi) by assumption.
      now rewrite !byte_of_val.
    + intros t. unfold DecodeRune. cbn [app]. rewrite L, F.
      cbn [Nat.leb Nat.ltb List.length]. now rewrite O1, O2, O3.
Qed.

(* ================================================================== *)
(** ** encoding/json: string literals *)

(** What [appendString] writes for an ASCII byte is accepted by the
    scanner and read back as that byte. *)
Lemma ascii_step (c : ascii) :
  (byte_val c <? 0x80) = true ->
  exists chunk,
    (forall r, appendString_body (c :: r) = chunk ++ appendString_body r)
    /\ (forall t, scan_string (chunk ++ t) = scan_string t)
    /\ (forall t, unquote_body (chunk ++ t) = prepend [c] (unquote_body t)).
Proof.
  intros H.
  each_byte c; try (vm_compute in H; discriminate H);
    eexists; (split; [|split]); intros; reflexivity.
Qed.

(** High bytes are not special to the three string functions. *)
Lemma high_byte (c : ascii) :
  (byte_val c <? 0x80) = false ->
  (forall r, scan_string (c :: r) = scan_string r)
  /\ (forall r,
        unquote_body (c :: r) =
        let '(rr, size) := DecodeRune (c :: r) in
        let rest :=
          match size, r with
          | 2%nat, _ :: r2 => r2
          | 3%nat, _ :: _ :: r3 => r3
          | 4%nat, _ :: _ :: _ :: r4 => r4
          | _, _ => r
          end in
        prepend (EncodeRune rr) (unquote_body rest)).
Proof.
  intros H.
  each_byte c; try (vm_compute in H; discriminate H);
    split; intros; reflexivity.
Qed.

Lemma high_bytes_scan (seq t : bytes) :
  Forall (fun c => 0x80 <= byte_val c) seq ->
  scan_string (seq ++ t) = scan_string t.
Proof.
  induction 1 as [|c seq Hc _ IH]; [reflexivity|].
  cbn [app]. destruct (high_byte c) as [Hs _]; [apply Z.ltb_ge; lia|].
  now rewrite Hs.
Qed.

(** The step of a well-formed sequence [seq], followed by [rest]. *)
Ltac sequence_step c seq rest rn Hseq L Hq :=
  let Hhigh := fresh "Hhigh" in
  let Henc := fresh "Henc" in
  let Hdec := fresh "Hdec" in
  let E := fresh "E" in
  let Esc := fresh "Esc" in
  let Er := fresh "Er" in
  let Hv := fresh "Hv" in
  let Et := fresh "Et" in
  destruct Hseq as (Hhigh & Henc & Hdec);
  pose proof (Hdec rest) as E; cbn [app List.length] in E;
  destruct ((rn =? 0x2028) || (rn =? 0x2029)) eqn:Esc;
  [ exists (["\"; "u"; "2"; "0"; "2"]%char ++ [hex_digit (Z.land rn 0xF)]), rest;
    split;
    [ cbn [appendString_body]; rewrite L, E, Esc; now rewrite andb_false_r |];
    split; [cbn [List.length]; lia|];
    apply orb_true_iff in Esc as [Er|Er]; apply Z.eqb_eq in Er; subst rn;
    (split; [reflexivity|]; intros Hv; exists seq;
     split; [reflexivity|]; split;
     [ cbn [utf8_Valid] in Hv; rewrite L, E in Hv;
       now apply andb_true_iff in Hv as [_ Hv]
     | intros t; rewrite <- Henc; reflexivity ])
  | exists seq, rest;
    split;
    [ cbn [appendString_body]; rewrite L, E, Esc; now rewrite andb_false_r |];
    split; [cbn [List.length]; lia|];
    split; [intros t; now apply high_bytes_scan|];
    intros Hv; exists seq;
    split; [reflexivity|]; split;
    [ cbn [utf8_Valid] in Hv; rewrite L, E in Hv;
      now apply andb_true_iff in Hv as [_ Hv]
    | intros t; cbn [app]; rewrite Hq;
      pose proof (Hdec t) as Et; cbn [app List.length] in Et;
      rewrite Et; now rewrite Henc ] ].

(** One step of [appendString] on [c :: r]: the text written for the
    first character, and the rest of the source.  The scanner accepts the
    text; when the source is valid UTF-8, [unquoteBytes] reads the text
    back as the bytes of the character. *)
Lemma string_step (c : ascii) (r : bytes) :
  exists chunk rest,
    appendString_body (c :: r) = chunk ++ appendString_body rest
    /\ (List.length rest <= List.length r)%nat
    /\ (forall t, scan_string (chunk ++ t) = scan_string t)
    /\ (utf8_Valid (c :: r) = true ->
        exists dec,
          c :: r = dec ++ rest
          /\ utf8_Valid rest = true
          /\ forall t,
               unquote_body (chunk ++ t) = prepend dec (unquote_body t)).
Proof.
  destruct (byte_val c <? 0x80) eqn:L.
  - destruct (ascii_step c L) as (chunk & Ha & Hs & Hu).
    exists chunk, r. split; [apply Ha|]. split; [lia|]. split; [apply Hs|].
    intros Hv. exists [c]. split; [reflexivity|]. split; [|apply Hu].
    cbn [utf8_Valid] in Hv. now rewrite L in Hv.
  - assert (H0 : 0x80 <= byte_val c) by (apply Z.ltb_ge in L; lia).
    destruct (high_byte c L) as [_ Hq].
    destruct (DecodeRune_high c r H0)
      as [E|[(c1 & rest & rn & -> & Hseq)
            |[(c1 & c2 & rest & rn & -> & Hseq)
             |(c1 & c2 & c3 & rest & rn & -> & Hseq)]]].
    + exists (["\"; "u"; "f"; "f"; "f"; "d"]%char), r.
      split; [cbn [appendString_body]; now rewrite L, E|].
      split; [lia|]. split; [reflexivity|].
      intros Hv. cbn [utf8_Valid] in Hv. rewrite L, E in Hv. discriminate.
    + sequence_step c [c; c1] rest rn Hseq L Hq.
    + sequence_step c [c; c1; c2] rest rn Hseq L Hq.
    + sequence_step c [c; c1; c2; c3] rest rn Hseq L Hq.
Qed.

(** The text written between the quotes is scanned up to the closing
    quote, for every source. *)
Lemma appendString_scans (s : bytes) :
  forall t, scan_string (appendString_body s ++ "034"%char :: t) = Some t.
Proof.
  remember (List.length s) as n eqn:Hn.
  revert s Hn. induction n as [n IH] using lt_wf_ind. intros s Hn t.
  destruct s as [|c r]; [reflexivity|].
  destruct (string_step c r) as (chunk & rest & Ea & Hlen & Hs & _).
  rewrite Ea, <- app_assoc, Hs.
  apply (IH (List.length rest)); [subst n; simpl; lia | reflexivity].
Qed.

(** On valid UTF-8, [unquoteBytes] undoes [appendString]. *)
Lemma unquote_appendString (s : bytes) :
  utf8_Valid s = true -> unquote_body (appendString_body s) = Some s.
Proof.
  remember (List.length s) as n eqn:Hn.
  revert s Hn. induction n as [n IH] using lt_wf_ind. intros s Hn Hv.
  destruct s as [|c r]; [reflexivity|].
  destruct (string_step c r) as (chunk & rest & Ea & Hlen & _ & Hu).
  destruct (Hu Hv) as (dec & Es & Hvr & Hq).
  rewrite Ea, Hq.
  rewrite (IH (List.length rest)) by (try assumption; subst n; simpl; lia).
  simpl. now rewrite Es.
Qed.

(** The payload written for a string. *)
Lemma string_payload (s : bytes) :
  bytes_Equal (appendString s) nullBytes = false
  /\ (utf8_Valid s = true ->
      forall v, json_Unmarshal_kind KString (appendString s) v = (s, None)).
Proof.
  split; [reflexivity|]. intros Hv v.
  pose proof (appendString_scans s []) as Hscan.
  assert (Hc : checkValid (appendString s) = true).
  { unfold checkValid, scan_fuel, appendString.
    cbn [skip_ws isSpace scan]. now rewrite Hscan. }
  assert (Hi : json_item (appendString s) = appendString s).
  { unfold json_item, scan_fuel, appendString.
    cbn [skip_ws isSpace scan]. rewrite Hscan.
    rewrite Nat.sub_0_r. apply firstn_all. }
  unfold json_Unmarshal_kind. rewrite Hc, Hi. cbn [negb].
  unfold appendString at 1. cbv iota.
  unfold literalStore, appendString, unquote.
  rewrite rev_unit, rev_involutive, unquote_appendString by assumption.
  reflexivity.
Qed.

Lemma bool_payload (b : bool) :
  let data := if b then bs "true" else bs "false" in
  bytes_Equal data nullBytes = false
  /\ forall v, json_Unmarshal_kind KBool data v = (b, None).
Proof. destruct b; split; reflexivity. Qed.

(* ================================================================== *)
(** ** null.go: the text round trip *)

Lemma Kind_eq_refl (K : Kind) (x : GoVal K) : Kind_eq K x x = true.
Proof.
  destruct K; simpl.
  - apply Z.eqb_refl.
  - apply Bool.eqb_reflx.
  - apply bytes_Equal_refl.
Qed.

(** On the kinds covered, [==] is equality of the values. *)
Lemma Kind_eq_spec (K : Kind) (x y : GoVal K) :
  Kind_eq K x y = true <-> x = y.
Proof.
  destruct K; simpl.
  - apply Z.eqb_eq.
  - apply Bool.eqb_true_iff.
  - apply bytes_Equal_eq.
Qed.

(** The text codec round-trips on the values of [text_safe]. *)
Lemma json_kind_roundtrip (K : Kind) (x v : GoVal K) :
  text_safe K x ->
  exists data,
    json_Marshal_kind K x = (data, None)
    /\ bytes_Equal data nullBytes = false
    /\ json_Unmarshal_kind K data v = (x, None).
Proof.
  destruct K as [k| |]; simpl; intros Hx.
  - now apply json_int_roundtrip.
  - destruct (bool_payload x) as [Hn Hu]. eexists. split; [reflexivity|].
    split; [exact Hn | apply Hu].
  - destruct (string_payload x) as [Hn Hu]. eexists. split; [reflexivity|].
    split; [exact Hn | now apply Hu].
Qed.


(* ================================================================== *)
(** * Further properties *)

(** ** null.go: what an invalid instance shows, and what [Scan] leaves *)

Lemma error_eqb_refl (e : error) : error_eqb e e = true.
Proof.
  induction e; simpl; rewrite ?bytes_Equal_refl; auto.
Qed.

Lemma errors_Is_refl (e : error) : errors_Is e e = true.
Proof. destruct e; simpl; now rewrite ?bytes_Equal_refl, ?error_eqb_refl. Qed.

Lemma wrapError_neq (e : error) : forall m, wrapError m e <> e.
Proof.
  induction e as [ | | | | ds | | v | m' e IH | s]; intros m E;
    try discriminate.
  injection E as _ E. now apply IH in E.
Qed.

Section NullMore.
Context {T : Type} `{GoType T}.

(** X1.  What is stored in [Val] of an invalid instance is never shown:
    two invalid instances agree on [ValueOrZero], [Ptr], [IsZero],
    [Value], [MarshalJSON], and on [Equal] with any third instance. *)
Theorem invalid_Val_is_hidden (x y : T) :
  let a := {| Val := x; Valid := false |} in
  let b := {| Val := y; Valid := false |} in
  ValueOrZero a = ValueOrZero b
  /\ Ptr a = Ptr b
  /\ IsZero a = IsZero b
  /\ Value a = Value b
  /\ MarshalJSON a = MarshalJSON b
  /\ (forall c, Equal a c = Equal b c /\ Equal c a = Equal c b).
Proof.
  repeat split; try reflexivity.
  destruct c as [z [|]]; reflexivity.
Qed.

(** X2.  After [Scan], the instance is valid exactly when the scanned
    value was not nil and [Scan] returned no error: an error never leaves
    a valid instance behind.  The outcome does not depend on what the
    instance held before. *)
Theorem Scan_valid_iff_no_error (n : Null T) (value : any) :
  (Valid (fst (Scan n value)) = true <->
     value <> nil_any /\ snd (Scan n value) = None)
  /\ (forall m : Null T, Scan m value = Scan n value).
Proof.
  split; [|reflexivity].
  unfold Scan.
  destruct value; simpl.
  1: { split; [discriminate | intros [Hn _]; now destruct Hn]. }
  all: match goal with
       | |- context [assert_T ?v] => destruct (assert_T v) as [w|]
       end; simpl.
  all: try (split; [intros _; split; [discriminate|reflexivity]
                   | reflexivity]).
  all: match goal with
       | |- context [convertAssign ?z ?v] =>
         destruct (convertAssign z v) as [w [err|]]
       end; simpl.
  all: split; try discriminate; try reflexivity.
  all: try (intros [_ He]; discriminate He).
  all: intros _; split; [discriminate|reflexivity].
Qed.

(** X3.  When decoding fails, the error that [UnmarshalJSON] returns wraps
    the error of [json.Unmarshal]: [errors.Is] finds the decode error in
    it, and it is not itself the decode error. *)
Theorem UnmarshalJSON_error_wraps (n : Null T) (data : bytes) (v : T)
  (e : error) :
  bytes_Equal data nullBytes = false ->
  json_Unmarshal data (Val n) = (v, Some e) ->
  exists err,
    snd (UnmarshalJSON n data) = Some err
    /\ errors_Is err e = true
    /\ err <> e.
Proof.
  intros Hn Hd. unfold UnmarshalJSON. rewrite Hn, Hd. simpl.
  eexists. split; [reflexivity|]. split.
  - simpl. rewrite errors_Is_refl. apply orb_true_r.
  - apply wrapError_neq.
Qed.

(** X4.  [Ptr] and [FromPtr] keep the value pointed to.  The pointer of
    [FromPtr(p)] is nil when [p] is nil, and otherwise points to a value
    equal to the one [p] points to (it is a pointer to a copy, not [p]
    itself: pointers are compared here by what they point to).  [FromPtr]
    of the pointer of a valid instance is that instance, and of the
    pointer of an invalid one the invalid instance with the zero
    value. *)
Theorem Ptr_FromPtr :
  (forall p : option T, Ptr (FromPtr p) = p)
  /\ (forall x : T,
        FromPtr (Ptr {| Val := x; Valid := true |})
        = {| Val := x; Valid := true |})
  /\ (forall x : T,
        FromPtr (Ptr {| Val := x; Valid := false |})
        = {| Val := zero; Valid := false |}).
Proof.
  repeat split. intros [x|]; reflexivity.
Qed.

End NullMore.

(** X3 at a concrete input: a malformed payload. *)
Lemma UnmarshalJSON_error_wraps_witness :
  exists err,
    snd (@UnmarshalJSON _ Null_int {| Val := 0; Valid := false |} (bs ":)"))
    = Some err
    /\ errors_Is err SyntaxError = true
    /\ err <> SyntaxError.
Proof.
  apply (@UnmarshalJSON_error_wraps _ Null_int {| Val := 0; Valid := false |}
           (bs ":)") 0 SyntaxError); reflexivity.
Defined.

(* ================================================================== *)
(** ** tx.go: every outcome, and the context of a transaction *)

Section TxMore.
Variable d : Driver.

(** A unit of work adds statements on its own handle, and nothing else. *)
Lemma run_statements (t : Tx) (w : Work) :
  forall tr o tr',
    run d t w tr = (o, tr') ->
    exists evs,
      tr' = tr ++ evs
      /\ Forall (fun ev => exists s, ev = EvStmt (Tx_Tx t) s) evs.
Proof.
  induction w as [err|v|s k IH]; simpl; intros tr o tr' E.
  - inversion E; subst. exists []. now rewrite app_nil_r.
  - inversion E; subst. exists []. now rewrite app_nil_r.
  - apply IH in E as (evs & -> & Hs).
    exists (EvStmt (Tx_Tx t) s :: evs). rewrite <- app_assoc.
    split; [reflexivity|]. constructor; [now exists s | assumption].
Qed.

(** The deferred function finalizes once and issues no statement. *)
Lemma deferred_finalizes (ctx : Context) (tx : Tx) (r : any)
  (err : option error) (tr : Trace) :
  exists fin,
    snd (TxWithOpts_deferred d ctx tx r err tr) = tr ++ fin
    /\ count_events is_stmt fin = 0%nat
    /\ (count_events is_commit fin + count_events is_rollback fin = 1)%nat
    /\ (In (EvCommit (Tx_Tx tx)) fin \/ In (EvRollback (Tx_Tx tx)) fin).
Proof.
  unfold TxWithOpts_deferred, Tx_Commit, Tx_Rollback.
  destruct err as [fe|]; destruct r; simpl;
    match goal with
    | |- context [if ?b then _ else _] => destruct b
    end; simpl;
    eexists; repeat rewrite <- app_assoc;
    (split; [reflexivity|]);
    simpl; repeat split; auto.
Qed.

(** X5.  Once the transaction has begun, [TxWithOpts] always returns,
    whether the unit of work returns or panics, and the events of the call
    are: the begin, the statements of the unit of work on the handle of
    the transaction, and then the finalization, which holds exactly one
    commit or rollback, of that handle, and no statement. *)
Theorem TxWithOpts_statements_then_finalization
  (ctx : Context) (fn : Tx -> Work) (opts : option TxOptions) (tr : Trace)
  (h : nat) :
  BeginTx d tr ctx opts = (h, None) ->
  exists r work fin,
    TxWithOpts d ctx fn opts tr
    = (Returned r, tr ++ [EvBegin opts] ++ work ++ fin)
    /\ Forall (fun ev => exists s, ev = EvStmt h s) work
    /\ count_events is_stmt fin = 0%nat
    /\ (count_events is_commit fin + count_events is_rollback fin = 1)%nat
    /\ (In (EvCommit h) fin \/ In (EvRollback h) fin).
Proof.
  intros Hb. unfold TxWithOpts, AcquireWithOpts. rewrite Hb.
  set (tx := {| Tx_Context := _; Tx_Tx := h |}).
  destruct (run d tx (fn tx) (tr ++ [EvBegin opts])) as [o tr2] eqn:Hrun.
  destruct (run_statements _ _ _ _ _ Hrun) as (work & -> & Hwork).
  destruct o as [err|v].
  - destruct (deferred_finalizes ctx tx nil_any err
                ((tr ++ [EvBegin opts]) ++ work)) as (fin & Hf & Hs & Hc & Hi).
    destruct (TxWithOpts_deferred d ctx tx nil_any err _) as [e' tr3].
    simpl in Hf. subst tr3. exists err, work, fin.
    rewrite <- !app_assoc. auto.
  - destruct (deferred_finalizes ctx tx v None
                ((tr ++ [EvBegin opts]) ++ work)) as (fin & Hf & Hs & Hc & Hi).
    destruct (TxWithOpts_deferred d ctx tx v None _) as [e' tr3].
    simpl in Hf. subst tr3. exists None, work, fin.
    rewrite <- !app_assoc. auto.
Qed.

(** X6.  When the transaction cannot begin, [TxWithOpts] returns the
    error of [BeginTx] as it is, and nothing else happens: the unit of
    work is not run, whatever it is, and nothing is committed or rolled
    back. *)
Theorem TxWithOpts_acquire_failure
  (ctx : Context) (opts : option TxOptions) (tr : Trace)
  (h : nat) (e : error) :
  BeginTx d tr ctx opts = (h, Some e) ->
  forall fn : Tx -> Work,
    TxWithOpts d ctx fn opts tr = (Returned (Some e), tr ++ [EvBegin opts]).
Proof.
  intros Hb fn. unfold TxWithOpts, AcquireWithOpts. now rewrite Hb.
Qed.

(** X7.  The context of an acquired transaction: [FromCtxOr] finds in it
    the handle that [BeginTx] returned, whatever the fallback and whatever
    transaction the caller's context already held; and every value that
    the caller's context holds under another key is still there. *)
Theorem AcquireWithOpts_context
  (ctx : Context) (opts : option TxOptions) (tr tr1 : Trace) (tx : Tx) :
  AcquireWithOpts d ctx opts tr = (inl tx, tr1) ->
  fst (BeginTx d tr ctx opts) = Tx_Tx tx
  /\ (forall data, FromCtxOr (Tx_Context tx) data = any_Access (Tx_Tx tx))
  /\ (forall key,
        key <> txKeyType ->
        ctx_Value (Tx_Context tx) key = ctx_Value ctx key).
Proof.
  unfold AcquireWithOpts.
  destruct (BeginTx d tr ctx opts) as [h [e|]]; intros E;
    inversion E; subst; clear E.
  simpl. repeat split.
  intros key Hk. destruct key; try reflexivity. now destruct Hk.
Qed.

(** X9.  A single-row query made inside an acquired transaction reports
    the data source of the caller's context: when the query finds no row,
    [QueryRow] returns the [*NotFoundError] of the identifier that the
    context passed to [AcquireWithOpts] holds. *)
Theorem QueryRow_in_transaction {T : Type}
  (ctx : Context) (opts : option TxOptions) (tr tr1 : Trace) (tx : Tx)
  (ds : bytes) (zeroT : T) (conv : list any -> T -> T * option error)
  (query : bytes) (binder : T -> list any) (args : list any) :
  AcquireWithOpts d ctx opts tr = (inl tx, tr1) ->
  ctx_Value ctx CtxDataSourceKey = any_string ds ->
  sqlTx_stmt d tr1 (Tx_Tx tx) (Tx_Context tx) (StQueryRow query args)
  = {| reply_err := None; reply_rows := [] |} ->
  fst (QueryRow d zeroT conv tx query binder args tr1)
  = Returned (zeroT, Some (NotFoundErrorPtr ds)).
Proof.
  intros Ha Hds Hrow.
  unfold AcquireWithOpts in Ha.
  destruct (BeginTx d tr ctx opts) as [h [e|]];
    inversion Ha; subst; clear Ha.
  unfold QueryRow, Tx_call, Row_Scan. rewrite Hrow. simpl.
  now rewrite Hds.
Qed.

(** X10.  [QueryRow] issues exactly one statement, the single-row query
    on the handle of its context, and never hands [sql.ErrNoRows] to its
    caller. *)
Theorem QueryRow_hides_ErrNoRows {T : Type} (zeroT : T)
  (conv : list any -> T -> T * option error)
  (ctx : Tx) (query : bytes) (binder : T -> list any) (args : list any)
  (tr : Trace) :
  snd (QueryRow d zeroT conv ctx query binder args tr)
  = tr ++ [EvStmt (Tx_Tx ctx) (StQueryRow query args)]
  /\ forall result,
       fst (QueryRow d zeroT conv ctx query binder args tr)
       <> Returned (result, Some ErrNoRows).
Proof.
  unfold QueryRow, Tx_call.
  destruct (Row_Scan conv _ zeroT) as [res [e|]].
  - destruct e; simpl; try (split; [reflexivity | discriminate]).
    destruct (ctx_Value (Tx_Context ctx) CtxDataSourceKey);
      simpl; split; try reflexivity; discriminate.
  - simpl. split; [reflexivity | discriminate].
Qed.

(** X11.  When the query succeeds and yields rows, [QueryRow] returns
    what the conversion of the first row gives, value and error, unless
    that error is [sql.ErrNoRows]; the rows after the first are not
    looked at. *)
Theorem QueryRow_first_row {T : Type} (zeroT : T)
  (conv : list any -> T -> T * option error)
  (ctx : Tx) (query : bytes) (binder : T -> list any) (args : list any)
  (tr : Trace) (cols : list any) (rest : list (list any)) :
  sqlTx_stmt d tr (Tx_Tx ctx) (Tx_Context ctx) (StQueryRow query args)
  = {| reply_err := None; reply_rows := cols :: rest |} ->
  snd (conv cols zeroT) <> Some ErrNoRows ->
  fst (QueryRow d zeroT conv ctx query binder args tr)
  = Returned (conv cols zeroT).
Proof.
  intros Hrow Hne. unfold QueryRow, Tx_call, Row_Scan. rewrite Hrow. simpl.
  destruct (conv cols zeroT) as [v [e|]]; [|reflexivity].
  destruct e; try reflexivity. now destruct Hne.
Qed.

End TxMore.

(** X8.  [FromCtxOr] gives the fallback when no transaction is bound in
    the context; a value bound under any other key does not hide a
    transaction; and of two transactions bound, the innermost is found. *)
Theorem FromCtxOr_lookup (ctx : Context) (data : any) :
  (no_transaction ctx -> FromCtxOr ctx data = data)
  /\ (forall key val,
        key <> txKeyType ->
        FromCtxOr (WithValue ctx key val) data = FromCtxOr ctx data)
  /\ (forall handle,
        FromCtxOr (WithValue ctx txKeyType (any_Access handle)) data
        = any_Access handle).
Proof.
  split; [|split].
  - intros Hno. unfold FromCtxOr.
    assert (E : ctx_Value ctx txKeyType = nil_any).
    { induction Hno as [|[k v] c Hk _ IH]; [reflexivity|].
      simpl in Hk |- *. destruct k; try assumption. now destruct Hk. }
    now rewrite E.
  - intros key val Hk. unfold FromCtxOr, WithValue. simpl.
    destruct key; try reflexivity. now destruct Hk.
  - reflexivity.
Qed.

(** X5 at a concrete input: a unit of work that panics. *)
Lemma TxWithOpts_statements_then_finalization_witness :
  exists r work fin,
    TxWithOpts (sample_driver None) [] insert_then_panic
               (Some DefaultTxOpts) []
    = (Returned r, [] ++ [EvBegin (Some DefaultTxOpts)] ++ work ++ fin)
    /\ Forall (fun ev => exists s, ev = EvStmt 1 s) work
    /\ count_events is_stmt fin = 0%nat
    /\ (count_events is_commit fin + count_events is_rollback fin = 1)%nat
    /\ (In (EvCommit 1) fin \/ In (EvRollback 1) fin).
Proof.
  apply (TxWithOpts_statements_then_finalization (sample_driver None) []
           insert_then_panic (Some DefaultTxOpts) [] 1); reflexivity.
Defined.

(** X6 at a concrete input. *)
Lemma TxWithOpts_acquire_failure_witness :
  TxWithOpts (failing_driver (errorString (bs "driver: bad connection"))) []
             insert_then_panic (Some DefaultTxOpts) []
  = (Returned (Some (errorString (bs "driver: bad connection"))),
     [] ++ [EvBegin (Some DefaultTxOpts)]).
Proof.
  apply (TxWithOpts_acquire_failure
           (failing_driver (errorString (bs "driver: bad connection"))) []
           (Some DefaultTxOpts) [] 0); reflexivity.
Defined.

(** X7 at a concrete input: the caller's context already holds a
    transaction and a data source. *)
Lemma AcquireWithOpts_context_witness :
  let ctx := [(CtxDataSourceKey, any_string (bs "users"));
              (txKeyType, any_Access 7)] in
  FromCtxOr ((txKeyType, any_Access 1) :: ctx) (any_Access 0) = any_Access 1
  /\ ctx_Value ((txKeyType, any_Access 1) :: ctx) CtxDataSourceKey
     = any_string (bs "users").
Proof.
  intros ctx.
  destruct (AcquireWithOpts_context (sample_driver None) ctx
              (Some DefaultTxOpts) [] [EvBegin (Some DefaultTxOpts)]
              {| Tx_Context := (txKeyType, any_Access 1) :: ctx;
                 Tx_Tx := 1 |} eq_refl) as (_ & Hf & Hv).
  split; [apply Hf|].
  exact (Hv CtxDataSourceKey ltac:(discriminate)).
Defined.

(** X8 at a concrete input: a context with a data source only. *)
Lemma FromCtxOr_lookup_witness :
  FromCtxOr [(CtxDataSourceKey, any_string (bs "users"))] (any_Access 0)
  = any_Access 0.
Proof.
  apply (proj1 (FromCtxOr_lookup
                  [(CtxDataSourceKey, any_string (bs "users"))]
                  (any_Access 0))).
  repeat constructor; discriminate.
Defined.

(** X9 at a concrete input. *)
Lemma QueryRow_in_transaction_witness :
  fst (QueryRow (sample_driver None) 0 (fun _ v => (v, None))
         {| Tx_Context :=
              [(txKeyType, any_Access 1);
               (CtxDataSourceKey, any_string (bs "users"))];
            Tx_Tx := 1 |}
         (bs "SELECT id FROM users WHERE id = ?") (fun _ => [])
         [any_int Kint 7] [EvBegin None])
  = Returned (0, Some (NotFoundErrorPtr (bs "users"))).
Proof.
  apply (QueryRow_in_transaction (sample_driver None)
           [(CtxDataSourceKey, any_string (bs "users"))] None []
           [EvBegin None]); reflexivity.
Defined.

(** X11 at a concrete input: two rows, the first is returned. *)
Lemma QueryRow_first_row_witness :
  fst (QueryRow (rows_driver [[any_int Kint 5]; [any_int Kint 6]]) 0
         scan_int users_ctx (bs "SELECT id FROM users") (fun _ => []) [] [])
  = Returned (5, None).
Proof.
  apply (QueryRow_first_row
           (rows_driver [[any_int Kint 5]; [any_int Kint 6]]) 0 scan_int
           users_ctx (bs "SELECT id FROM users") (fun _ => []) [] []
           [any_int Kint 5] [[any_int Kint 6]]);
    [reflexivity | discriminate].
Defined.

(* ================================================================== *)
(** ** The row helper [Query] *)

Section QueryFacts.
Variable d : Driver.
Context {T : Type}.
Variable zeroT : T.
Variable scan : list any -> T -> T * option error.

Lemma Query_loop_ok (rows : list (list any)) :
  Forall (fun cols => snd (scan cols zeroT) = None) rows ->
  forall results,
    Query_loop zeroT scan rows results
    = (results ++ map (fun cols => fst (scan cols zeroT)) rows, None).
Proof.
  induction 1 as [|cols rows Hc _ IH]; intros results; simpl.
  - now rewrite app_nil_r.
  - destruct (scan cols zeroT) as [v [e|]]; [discriminate|].
    rewrite IH, <- app_assoc. reflexivity.
Qed.

Lemma Query_loop_error (good : list (list any)) (bad : list any)
  (rest : list (list any)) (e : error) :
  Forall (fun cols => snd (scan cols zeroT) = None) good ->
  snd (scan bad zeroT) = Some e ->
  forall results,
    Query_loop zeroT scan (good ++ bad :: rest) results = ([], Some e).
Proof.
  intros Hgood Hbad.
  induction Hgood as [|cols rows Hc _ IH]; intros results; simpl.
  - destruct (scan bad zeroT) as [v [e'|]]; simpl in Hbad; now inversion Hbad.
  - destruct (scan cols zeroT) as [v [e'|]]; [discriminate|]. apply IH.
Qed.

(** X12.  [Query] issues one statement.  When the query fails, it returns
    that error and no row.  When every row scans, it returns the scanned
    rows, one per row of the result and in the order of the result, each
    scanned into a fresh zero value; an empty result gives an empty slice
    and no error.  When a row fails to scan, it returns the error of the
    first such row and discards the rows scanned before it; the rows
    after it are not scanned. *)
Theorem Query_results
  (ctx : Tx) (query : bytes) (args : list any) (tr : Trace) :
  let reply := sqlTx_stmt d tr (Tx_Tx ctx) (Tx_Context ctx)
                          (StQuery query args) in
  let res := Query d zeroT scan ctx query args tr in
  snd res = tr ++ [EvStmt (Tx_Tx ctx) (StQuery query args)]
  /\ (forall e, reply_err reply = Some e -> fst res = ([], Some e))
  /\ (reply_err reply = None ->
      Forall (fun cols => snd (scan cols zeroT) = None) (reply_rows reply) ->
      fst res
      = (map (fun cols => fst (scan cols zeroT)) (reply_rows reply), None))
  /\ (forall good bad rest e,
        reply_err reply = None ->
        reply_rows reply = good ++ bad :: rest ->
        Forall (fun cols => snd (scan cols zeroT) = None) good ->
        snd (scan bad zeroT) = Some e ->
        fst res = ([], Some e)).
Proof.
  intros reply res. subst res. unfold Query, Tx_call. fold reply.
  split; [now destruct (reply_err reply)|]. split; [|split].
  - intros e He. now rewrite He.
  - intros He Hall. rewrite He. simpl. now rewrite Query_loop_ok.
  - intros good bad rest e He Hrows Hgood Hbad. rewrite He, Hrows. simpl.
    now apply Query_loop_error.
Qed.

End QueryFacts.

(** X12 at a concrete input: the second of three rows does not scan. *)
Lemma Query_results_witness :
  fst (Query (rows_driver [[any_int Kint 5]; [any_string (bs "x")];
                           [any_int Kint 6]])
             0 scan_int users_ctx (bs "SELECT id FROM users") [] [])
  = ([], Some (errorString (bs "sql: Scan error on column index 0"))).
Proof.
  apply (proj2 (proj2 (proj2
           (Query_results
              (rows_driver [[any_int Kint 5]; [any_string (bs "x")];
                            [any_int Kint 6]])
              0 scan_int users_ctx (bs "SELECT id FROM users") [] [])))
           [[any_int Kint 5]] [any_string (bs "x")] [[any_int Kint 6]]
           (errorString (bs "sql: Scan error on column index 0")));
    try reflexivity.
  repeat constructor.
Defined.

(* ================================================================== *)
(** ** errors.go *)

(** X13.  The message of a [NotFoundError] starts with [no data found]
    and tells the data source: two errors with the same message have the
    same [DataSource]. *)
Theorem NotFoundError_Error_injective (a b : bytes) :
  (exists rest, NotFoundError_Error a = bs "no data found" ++ rest)
  /\ (NotFoundError_Error a = NotFoundError_Error b -> a = b).
Proof.
  unfold NotFoundError_Error. split.
  - destruct a as [|c a]; simpl.
    + exists []. reflexivity.
    + exists (bs " in " ++ c :: a). reflexivity.
  - destruct a as [|c a], b as [|c' b]; simpl; intros E;
      try reflexivity; try discriminate E.
    apply (app_inv_head (bs "no data found in ")) in E. exact E.
Qed.

(** X13 at a concrete input. *)
Lemma NotFoundError_Error_injective_witness :
  (exists rest,
     NotFoundError_Error (bs "users") = bs "no data found" ++ rest)
  /\ bs "users" = bs "users".
Proof.
  split.
  - exact (proj1 (NotFoundError_Error_injective (bs "users") (bs "users"))).
  - exact (proj2 (NotFoundError_Error_injective (bs "users") (bs "users"))
                 eq_refl).
Defined.

(* ================================================================== *)
(** ** null.go on the kinds covered: driver values, equality, text *)

Lemma Kind_assert_box (K : Kind) (x : GoVal K) :
  Kind_assert K (Kind_box K x) = Some x /\ Kind_box K x <> nil_any.
Proof.
  destruct K as [k| |]; simpl; split; try discriminate; try reflexivity.
  now destruct k.
Qed.

Lemma Kind_eq_sym (K : Kind) (x y : GoVal K) :
  Kind_eq K x y = Kind_eq K y x.
Proof.
  destruct (Kind_eq K x y) eqn:E1, (Kind_eq K y x) eqn:E2; try reflexivity.
  - apply Kind_eq_spec in E1. subst. now rewrite Kind_eq_refl in E2.
  - apply Kind_eq_spec in E2. subst. now rewrite Kind_eq_refl in E1.
Qed.

Section KindFacts.
Variable K : Kind.
Variable conv : GoVal K -> any -> GoVal K * option error.

(** X14.  The driver round trip: scanning the driver value of [n] into
    any instance succeeds and gives [n] back when [n] is valid, and the
    invalid instance with the zero value when it is not; either way the
    result is [Equal] to [n]. *)
Theorem Scan_Value (n m : Null (GoVal K)) :
  @Scan _ (Kind_GoType K conv) m (fst (@Value _ (Kind_GoType K conv) n))
  = (if Valid n then {| Val := Val n; Valid := true |}
     else {| Val := Kind_zero K; Valid := false |}, None)
  /\ @Equal _ (Kind_GoType K conv)
            (fst (@Scan _ (Kind_GoType K conv) m
                          (fst (@Value _ (Kind_GoType K conv) n))))
            n = true.
Proof.
  destruct n as [x [|]]; unfold Value, Scan, Equal; simpl.
  - destruct (Kind_assert_box K x) as [Ha Hb]. rewrite Ha.
    destruct (Kind_box K x) eqn:E; try (now destruct Hb);
      simpl; now rewrite Kind_eq_refl.
  - split; reflexivity.
Qed.

(** X15.  On these kinds [Equal] is an equivalence: reflexive, symmetric
    and transitive. *)
Theorem Equal_equivalence (a b c : Null (GoVal K)) :
  @Equal _ (Kind_GoType K conv) a a = true
  /\ @Equal _ (Kind_GoType K conv) a b = @Equal _ (Kind_GoType K conv) b a
  /\ (@Equal _ (Kind_GoType K conv) a b = true ->
      @Equal _ (Kind_GoType K conv) b c = true ->
      @Equal _ (Kind_GoType K conv) a c = true).
Proof.
  destruct a as [x [|]], b as [y [|]], c as [z [|]];
    unfold Equal; simpl; repeat split;
    try reflexivity; try discriminate;
    try apply Kind_eq_refl; try apply Kind_eq_sym.
  intros E1 E2. apply Kind_eq_spec in E1, E2. subst. apply Kind_eq_refl.
Qed.

End KindFacts.

(** X15 at a concrete input: three valid integers. *)
Lemma Equal_equivalence_witness :
  @Equal _ Null_int {| Val := 10; Valid := true |}
                    {| Val := 10; Valid := true |} = true.
Proof.
  exact (proj2 (proj2 (Equal_equivalence (KInt Kint)
                         (refuse_convert (KInt Kint))
                         {| Val := 10; Valid := true |}
                         {| Val := 10; Valid := true |}
                         {| Val := 10; Valid := true |}))
               eq_refl eq_refl).
Defined.

(* ================================================================== *)
(** ** The decimal text of any integer *)

Lemma ParseInt_FormatInt_any (i : Z) :
  ParseInt (FormatInt i)
  = if (- 2 ^ 63 <=? i) && (i <? 2 ^ 63) then Some i else None.
Proof.
  unfold FormatInt. destruct (Z.ltb_spec i 0) as [Hneg|Hpos].
  - destruct (FormatUint_spec (- i)) as (c & ds & Ef & Hc & _ & _ & Hp);
      [lia|].
    rewrite Ef. unfold ParseInt. rewrite Hp.
    destruct (Z.leb_spec (2 ^ 63) (- i)), (Z.ltb_spec (2 ^ 63) (- i)),
             (Z.leb_spec (- 2 ^ 63) i), (Z.ltb_spec i (2 ^ 63));
      simpl; try lia; try reflexivity; f_equal; lia.
  - destruct (FormatUint_spec i) as (c & ds & Ef & Hc & _ & _ & Hp); [lia|].
    rewrite Ef. destruct (digit_head c Hc) as (_ & _ & E). rewrite E, Hp.
    destruct (Z.leb_spec (2 ^ 63) i), (Z.leb_spec (- 2 ^ 63) i),
             (Z.ltb_spec i (2 ^ 63)); simpl; try lia; reflexivity.
Qed.

Lemma ParseUint_FormatInt_any (i : Z) :
  ParseUint (FormatInt i)
  = if (0 <=? i) && (i <? 2 ^ 64) then Some i else None.
Proof.
  unfold FormatInt. destruct (Z.ltb_spec i 0) as [Hneg|Hpos].
  - destruct (Z.leb_spec 0 i); [lia|]. reflexivity.
  - destruct (FormatUint_spec i) as (c & ds & Ef & _ & _ & _ & Hp); [lia|].
    rewrite Ef. unfold ParseUint. rewrite Hp.
    destruct (Z.leb_spec 0 i), (Z.ltb_spec i (2 ^ 64));
      simpl; try lia; reflexivity.
Qed.

(** X16.  For every integer kind and every integer, [UnmarshalJSON] of
    the decimal text of the integer succeeds exactly when the integer is
    within the range of the kind: it then stores the integer and marks the
    instance valid, whatever the instance held; otherwise it returns the
    wrapped [*json.UnmarshalTypeError] and leaves the instance as it
    was. *)
Theorem UnmarshalJSON_decimal_text (k : IntKind)
  (conv : Z -> any -> Z * option error) (n : Null Z) (i : Z) :
  @UnmarshalJSON _ (Kind_GoType (KInt k) conv) n (FormatInt i)
  = if (int_min k <=? i) && (i <=? int_max k)
    then ({| Val := i; Valid := true |}, None)
    else ({| Val := Val n; Valid := Valid n |},
          Some (wrapError (bs "null: couldn't unmarshal JSON")
                  (UnmarshalTypeError (bs "number " ++ FormatInt i)))).
Proof.
  destruct (number_payload _ (FormatInt_scan i)) as (Hn & _ & _ & Hs).
  unfold UnmarshalJSON. rewrite Hn. simpl json_Unmarshal. rewrite Hs.
  unfold store_number, Overflow.
  destruct k; rewrite ?ParseInt_FormatInt_any, ?ParseUint_FormatInt_any;
    unfold int_min, int_max;
    repeat (match goal with
            | |- context [?a <=? ?b] => destruct (Z.leb_spec a b)
            | |- context [?a <? ?b] => destruct (Z.ltb_spec a b)
            end; cbn [andb orb negb]; try lia);
    reflexivity.
Qed.

(* ================================================================== *)
(** ** What [MarshalJSON] writes *)

Lemma FormatUint_not_null (u : Z) :
  bytes_Equal (FormatUint u) nullBytes = false.
Proof.
  destruct (Z.ltb_spec u 0) as [Hneg|Hpos].
  - unfold FormatUint. cbn [format_digits].
    destruct (Z.ltb_spec u 10); [|lia]. simpl. apply andb_false_r.
  - destruct (FormatUint_spec u Hpos) as (c & ds & -> & Hc & _).
    destruct (number_head c (or_introl Hc)) as (_ & Hn & _).
    simpl. now rewrite Hn.
Qed.

Lemma FormatInt_not_null (i : Z) :
  bytes_Equal (FormatInt i) nullBytes = false.
Proof.
  unfold FormatInt. destruct (i <? 0); [reflexivity|].
  apply FormatUint_not_null.
Qed.

Lemma appendString_valid (s : bytes) : checkValid (appendString s) = true.
Proof.
  pose proof (appendString_scans s []) as Hscan.
  unfold checkValid, scan_fuel, appendString.
  cbn [skip_ws isSpace scan]. now rewrite Hscan.
Qed.

Lemma MarshalJSON_null_text (K : Kind)
  (conv : GoVal K -> any -> GoVal K * option error) (v : Null (GoVal K)) :
  bytes_Equal (fst (@MarshalJSON _ (Kind_GoType K conv) v)) nullBytes
  = negb (Valid v).
Proof.
  destruct v as [x [|]]; unfold MarshalJSON; simpl; [|reflexivity].
  destruct K as [k| |]; simpl in *.
  - destruct k; simpl; try apply FormatInt_not_null.
    apply FormatUint_not_null.
  - now destruct x.
  - reflexivity.
Qed.

(** X17.  On these kinds [MarshalJSON] never fails, and it writes the
    null literal exactly for the invalid instances: the text of a valid
    instance is never [null]. *)
Theorem MarshalJSON_null_iff_invalid (K : Kind)
  (conv : GoVal K -> any -> GoVal K * option error) (v : Null (GoVal K)) :
  snd (@MarshalJSON _ (Kind_GoType K conv) v) = None
  /\ bytes_Equal (fst (@MarshalJSON _ (Kind_GoType K conv) v)) nullBytes
     = negb (Valid v).
Proof.
  split; [|apply MarshalJSON_null_text].
  destruct v as [x [|]]; unfold MarshalJSON; simpl; [|reflexivity].
  destruct K as [[]| |]; reflexivity.
Qed.

(** X18.  On these kinds, what [MarshalJSON] writes for a value that the
    Go type can hold is always one valid JSON text, also for a string
    that is not valid UTF-8. *)
Theorem MarshalJSON_valid_JSON (K : Kind)
  (conv : GoVal K -> any -> GoVal K * option error) (v : Null (GoVal K)) :
  representable K (Val v) ->
  checkValid (fst (@MarshalJSON _ (Kind_GoType K conv) v)) = true.
Proof.
  destruct v as [x [|]]; unfold MarshalJSON; simpl; [|reflexivity].
  destruct K as [k| |]; simpl; intros Hx.
  - assert (E : fst (json_Marshal_kind (KInt k) x) = FormatInt x).
    { destruct k; try reflexivity. simpl in Hx |- *. unfold FormatInt.
      destruct (Z.ltb_spec x 0); [lia|reflexivity]. }
    simpl in E. rewrite E.
    now destruct (number_payload _ (FormatInt_scan x)) as (_ & Hc & _).
  - now destruct x.
  - apply appendString_valid.
Qed.

Lemma MarshalJSON_valid_JSON_witness :
  checkValid
    (fst (@MarshalJSON _ Null_string {| Val := ["255"%char]; Valid := true |}))
  = true.
Proof.
  apply (MarshalJSON_valid_JSON KString (refuse_convert KString)
           {| Val := ["255"%char]; Valid := true |}).
  exact I.
Defined.

(** X19.  On integers, booleans and strings of valid UTF-8, the text
    tells the value: two instances have the same text exactly when they
    are [Equal]. *)
Theorem MarshalJSON_injective (K : Kind)
  (conv : GoVal K -> any -> GoVal K * option error)
  (a b : Null (GoVal K)) :
  (Valid a = true -> text_safe K (Val a)) ->
  (Valid b = true -> text_safe K (Val b)) ->
  (@MarshalJSON _ (Kind_GoType K conv) a
   = @MarshalJSON _ (Kind_GoType K conv) b
   <-> @Equal _ (Kind_GoType K conv) a b = true).
Proof.
  intros Ha Hb.
  pose proof (MarshalJSON_null_text K conv a) as Na.
  pose proof (MarshalJSON_null_text K conv b) as Nb.
  destruct a as [x [|]], b as [y [|]].
  - specialize (Ha eq_refl). specialize (Hb eq_refl). simpl in Ha, Hb.
    unfold Equal, MarshalJSON. simpl. split.
    + intros E.
      destruct (json_kind_roundtrip K x (Kind_zero K) Ha) as (dx & Mx & _ & Ux).
      destruct (json_kind_roundtrip K y (Kind_zero K) Hb) as (dy & My & _ & Uy).
      rewrite E, My in Mx. inversion Mx; subst dx.
      rewrite Uy in Ux. inversion Ux; subst. apply Kind_eq_refl.
    + intros E. apply Kind_eq_spec in E. now subst.
  - split; [|discriminate]. intros E. rewrite E, Nb in Na. discriminate.
  - split; [|discriminate]. intros E. rewrite E, Nb in Na. discriminate.
  - split; reflexivity.
Qed.

(** X19 at a concrete input: two strings. *)
Lemma MarshalJSON_injective_witness :
  @MarshalJSON _ Null_string {| Val := bs "a"; Valid := true |}
  = @MarshalJSON _ Null_string {| Val := bs "b"; Valid := true |}
  <-> @Equal _ Null_string {| Val := bs "a"; Valid := true |}
                           {| Val := bs "b"; Valid := true |} = true.
Proof.
  apply (MarshalJSON_injective KString (refuse_convert KString)
           {| Val := bs "a"; Valid := true |}
           {| Val := bs "b"; Valid := true |});
    intros _; reflexivity.
Defined.

(* ================================================================== *)
(** ** The null literal and white space *)

Lemma skip_ws_spaces (ws rest : bytes) :
  forallb isSpace ws = true -> skip_ws (ws ++ rest) = skip_ws rest.
Proof.
  induction ws as [|c ws IH]; simpl; [reflexivity|].
  intros H. apply andb_true_iff in H as [Hc Hws]. rewrite Hc. auto.
Qed.

Lemma space_not_n (c : ascii) : isSpace c = true -> byte_eqb c "n" = false.
Proof.
  intros H. each_byte c; try reflexivity; vm_compute in H; discriminate.
Qed.

(** X20.  [UnmarshalJSON] takes for null only the four bytes of the
    literal.  The literal with white space before or after it is given to
    [json.Unmarshal], which accepts it and stores nothing: the instance
    keeps its [Val] and is marked valid. *)
Theorem UnmarshalJSON_padded_null (K : Kind)
  (conv : GoVal K -> any -> GoVal K * option error) (n : Null (GoVal K))
  (before after : bytes) :
  forallb isSpace before = true ->
  forallb isSpace after = true ->
  before ++ after <> [] ->
  @UnmarshalJSON _ (Kind_GoType K conv) n (before ++ bs "null" ++ after)
  = ({| Val := Val n; Valid := true |}, None).
Proof.
  intros Hb Ha Hne.
  set (data := before ++ bs "null" ++ after).
  assert (Hnull : bytes_Equal data nullBytes = false).
  { subst data. destruct before as [|c before].
    - destruct after as [|c after]; [now destruct Hne|].
      apply not_true_iff_false. intros E. apply bytes_Equal_eq in E.
      discriminate E.
    - simpl in Hb. apply andb_true_iff in Hb as [Hc _].
      simpl. now rewrite (space_not_n c Hc). }
  assert (Hskip : skip_ws data = bs "null" ++ after).
  { subst data. now rewrite skip_ws_spaces. }
  assert (Hend : skip_ws after = []).
  { rewrite <- (app_nil_r after). now rewrite skip_ws_spaces. }
  assert (Hscan : scan (scan_fuel data) scanValue (bs "null" ++ after)
                  = Some after) by reflexivity.
  assert (Hc : checkValid data = true).
  { unfold checkValid. now rewrite Hskip, Hscan, Hend. }
  assert (Hi : json_item data = bs "null").
  { unfold json_item. rewrite Hskip, Hscan.
    replace (List.length (bs "null" ++ after) - List.length after)%nat
      with 4%nat
      by (rewrite length_app;
          change (List.length (bs "null")) with 4%nat; lia).
    reflexivity. }
  unfold UnmarshalJSON. rewrite Hnull.
  cbn [json_Unmarshal Kind_GoType]. unfold json_Unmarshal_kind.
  rewrite Hc, Hi. destruct K; reflexivity.
Qed.

(** X20 at a concrete input: a space before the literal. *)
Lemma UnmarshalJSON_padded_null_witness :
  @UnmarshalJSON _ Null_int {| Val := 7; Valid := false |} (bs " null")
  = ({| Val := 7; Valid := true |}, None).
Proof.
  apply (UnmarshalJSON_padded_null (KInt Kint) (refuse_convert (KInt Kint))
           {| Val := 7; Valid := false |} (bs " ") []);
    [reflexivity | reflexivity | discriminate].
Defined.

(* ================================================================== *)
(** ** Strings that are not valid UTF-8 *)

(** A well-formed sequence in front of a text does not change whether
    the text is valid. *)
Lemma utf8_Valid_sequence (seq : bytes) (rn : Z) (t : bytes) :
  utf8_sequence seq rn ->
  (2 <= List.length seq <= 4)%nat ->
  utf8_Valid (seq ++ t) = utf8_Valid t.
Proof.
  intros (Hhigh & _ & Hdec) Hlen. pose proof (Hdec t) as E.
  destruct seq as [|c0 [|c1 [|c2 [|c3 [|c4 seq]]]]]; simpl in Hlen; try lia;
    inversion Hhigh as [|? ? H0 _]; subst;
    assert (L : (byte_val c0 <? 0x80) = false) by (apply Z.ltb_ge; lia);
    cbn [app List.length] in E |- *; cbn [utf8_Valid];
    rewrite L, E; now rewrite andb_false_r.
Qed.

Ltac sequence_step_any c seq rest rn Hseq L Hq :=
  let Hhigh := fresh "Hhigh" in
  let Henc := fresh "Henc" in
  let Hdec := fresh "Hdec" in
  let E := fresh "E" in
  let Esc := fresh "Esc" in
  let Er := fresh "Er" in
  let Et := fresh "Et" in
  pose proof Hseq as (Hhigh & Henc & Hdec);
  pose proof (Hdec rest) as E; cbn [app List.length] in E;
  destruct ((rn =? 0x2028) || (rn =? 0x2029)) eqn:Esc;
  [ exists (["\"; "u"; "2"; "0"; "2"]%char ++ [hex_digit (Z.land rn 0xF)]),
           rest, seq;
    split;
    [ cbn [appendString_body]; rewrite L, E, Esc; now rewrite andb_false_r |];
    split; [cbn [List.length]; lia|];
    split;
    [ apply orb_true_iff in Esc as [Er|Er]; apply Z.eqb_eq in Er; subst rn;
      intros t; rewrite <- Henc; reflexivity
    | split;
      [ intros t; apply (utf8_Valid_sequence seq rn t Hseq);
        cbn [List.length]; lia
      | intros _; reflexivity ] ]
  | exists seq, rest, seq;
    split;
    [ cbn [appendString_body]; rewrite L, E, Esc; now rewrite andb_false_r |];
    split; [cbn [List.length]; lia|];
    split;
    [ intros t; cbn [app]; rewrite Hq;
      pose proof (Hdec t) as Et; cbn [app List.length] in Et;
      rewrite Et; now rewrite Henc
    | split;
      [ intros t; apply (utf8_Valid_sequence seq rn t Hseq);
        cbn [List.length]; lia
      | intros _; reflexivity ] ] ].

(** One step of [appendString] on any source: the text written for the
    first character is read back as bytes [dec] that are valid UTF-8: the
    bytes of the character when the source is valid there, the replacement
    character when it is not. *)
Lemma string_step_any (c : ascii) (r : bytes) :
  exists chunk rest dec,
    appendString_body (c :: r) = chunk ++ appendString_body rest
    /\ (List.length rest <= List.length r)%nat
    /\ (forall t, unquote_body (chunk ++ t) = prepend dec (unquote_body t))
    /\ (forall t, utf8_Valid (dec ++ t) = utf8_Valid t)
    /\ (utf8_Valid (c :: r) = true -> c :: r = dec ++ rest).
Proof.
  destruct (byte_val c <? 0x80) eqn:L.
  - destruct (ascii_step c L) as (chunk & Ha & _ & Hu).
    exists chunk, r, [c]. split; [apply Ha|]. split; [lia|].
    split; [apply Hu|]. split; [|reflexivity].
    intros t. cbn [app utf8_Valid]. now rewrite L.
  - assert (H0 : 0x80 <= byte_val c) by (apply Z.ltb_ge in L; lia).
    destruct (high_byte c L) as [_ Hq].
    destruct (DecodeRune_high c r H0)
      as [E|[(c1 & rest & rn & -> & Hseq)
            |[(c1 & c2 & rest & rn & -> & Hseq)
             |(c1 & c2 & c3 & rest & rn & -> & Hseq)]]].
    + exists (["\"; "u"; "f"; "f"; "f"; "d"]%char), r, (EncodeRune RuneError).
      split; [cbn [appendString_body]; now rewrite L, E|].
      split; [lia|]. split; [reflexivity|]. split; [reflexivity|].
      intros Hv. cbn [utf8_Valid] in Hv. rewrite L, E in Hv. discriminate.
    + sequence_step_any c [c; c1] rest rn Hseq L Hq.
    + sequence_step_any c [c; c1; c2] rest rn Hseq L Hq.
    + sequence_step_any c [c; c1; c2; c3] rest rn Hseq L Hq.
Qed.

(** What [unquoteBytes] reads back from the text of any string: a string
    of valid UTF-8, which is the source when the source is valid. *)
Lemma unquote_appendString_any (s : bytes) :
  exists s',
    unquote_body (appendString_body s) = Some s'
    /\ utf8_Valid s' = true
    /\ (utf8_Valid s = true -> s' = s).
Proof.
  remember (List.length s) as n eqn:Hn.
  revert s Hn. induction n as [n IH] using lt_wf_ind. intros s Hn.
  destruct s as [|c r]; [exists []; auto|].
  destruct (string_step_any c r)
    as (chunk & rest & dec & Ea & Hlen & Hq & Hv & Hs).
  destruct (IH (List.length rest)) with (s := rest)
    as (r' & Hr & Hvr & Hid); [subst n; simpl; lia | reflexivity |].
  exists (dec ++ r'). rewrite Ea, Hq, Hr. split; [reflexivity|].
  split; [now rewrite Hv|].
  intros Hvs. pose proof (Hs Hvs) as Es. rewrite Es in Hvs.
  rewrite Hv in Hvs. rewrite (Hid Hvs). now symmetry.
Qed.

(** X21.  For every string, valid UTF-8 or not, decoding what
    [MarshalJSON] writes for the valid instance succeeds and gives a valid
    instance whose string is valid UTF-8; that instance is a fixed point:
    encoding and decoding it gives it back. *)
Theorem MarshalJSON_string_normalizes
  (conv : bytes -> any -> bytes * option error) (s : bytes)
  (n : Null bytes) :
  exists s',
    @UnmarshalJSON _ (Kind_GoType KString conv) n
      (fst (@MarshalJSON _ (Kind_GoType KString conv)
              {| Val := s; Valid := true |}))
    = ({| Val := s'; Valid := true |}, None)
    /\ utf8_Valid s' = true
    /\ @UnmarshalJSON _ (Kind_GoType KString conv) n
         (fst (@MarshalJSON _ (Kind_GoType KString conv)
                 {| Val := s'; Valid := true |}))
       = ({| Val := s'; Valid := true |}, None).
Proof.
  destruct (unquote_appendString_any s) as (s' & Hu & Hv & _).
  exists s'.
  assert (Hdecode : forall x y,
            unquote_body (appendString_body x) = Some y ->
            @UnmarshalJSON _ (Kind_GoType KString conv) n
              (fst (@MarshalJSON _ (Kind_GoType KString conv)
                      {| Val := x; Valid := true |}))
            = ({| Val := y; Valid := true |}, None)).
  { intros x y Hxy. unfold MarshalJSON, UnmarshalJSON.
    cbn [Valid Val negb json_Marshal json_Unmarshal Kind_GoType
         json_Marshal_kind fst].
    pose proof (appendString_scans x []) as Hscan.
    assert (Hc : checkValid (appendString x) = true).
    { unfold checkValid, scan_fuel, appendString.
      cbn [skip_ws isSpace scan]. now rewrite Hscan. }
    assert (Hi : json_item (appendString x) = appendString x).
    { unfold json_item, scan_fuel, appendString.
      cbn [skip_ws isSpace scan]. rewrite Hscan.
      rewrite Nat.sub_0_r. apply firstn_all. }
    change (bytes_Equal (appendString x) nullBytes) with false. cbv iota.
    unfold json_Unmarshal_kind. rewrite Hc, Hi. cbn [negb].
    unfold appendString at 1. cbv iota.
    unfold literalStore, appendString, unquote.
    now rewrite rev_unit, rev_involutive, Hxy. }
  split; [now apply Hdecode|]. split; [assumption|].
  apply Hdecode.
  destruct (unquote_appendString_any s') as (s'' & Hu' & _ & Hid).
  now rewrite Hu', (Hid Hv).
Qed.


(* ================================================================== *)
(** ** null.go: when the text round trip holds *)




